(** * Method-of-lines notebooks: 1-D heat equation and 2-D damped wave equation

    A shallow embedding of the two notebooks of the repository:

    - the 1-D heat notebook ([params], [odefun], the [solve_ivp] call), and
    - [A2_2D_wave_damped_wave_equation_external_force.ipynb] (grid set-up,
      [external_force], [odefun], the [solve_ivp] call).

    Modelling conventions.

    - Numbers.  Where a property concerns shapes, indices, error outcomes,
      comparisons, or the expression an entry is computed by, NumPy [float64]
      values are idealised as exact rationals: the type [Qc] of canonical
      rationals, whose equality is Leibniz equality.  Rounding, infinities
      and NaN are outside that model, so its theorems exclude division by
      zero and never rest on cancellation.  Where rounding decides - sums and
      differences of results, the number of grid points - the code is
      written over an arithmetic given as a parameter, and evaluated in
      IEEE 754 binary64 (Rocq's primitive floats).
    - A 1-D array is a [list Qc]; a 2-D array of shape [(Nx, Ny)] is a list of
      [Nx] rows of length [Ny] (row-major, as NumPy stores it).
    - Python exceptions are values of [exn]; code that may raise lives in the
      [result] monad, whose bind stops at the first exception, exactly as an
      uncaught Python exception leaves the function.
    - [scipy.integrate.solve_ivp] is an external collaborator: the drivers are
      parameterised by it. *)

From Stdlib Require Import QArith Qcanon ZArith Lia.
From Stdlib Require Import PrimFloat FloatOps SpecFloat Uint63.
From stdpp Require Import base list numbers strings.

Open Scope Qc_scope.

(** Decimal float literals denote the nearest binary64 value, as in Python. *)
Set Warnings "-inexact-float".

(** Default value of an out-of-range total lookup [l !!! i]. *)
#[global] Instance Qc_inhabited : Inhabited Qc := populate 0.

(** ** Python exceptions and the result monad *)

Inductive exn : Set :=
| ValueError
| IndexError
| ZeroDivisionError
| OverflowError.

Inductive result (A : Type) : Type :=
| Ok (a : A)
| Raise (e : exn).
Arguments Ok {A} a.
Arguments Raise {A} e.

#[global] Instance result_ret : MRet result := fun A a => Ok a.
#[global] Instance result_bind : MBind result := fun A B f m =>
  match m with
  | Ok a => f a
  | Raise e => Raise e
  end.

Definition is_Ok {A} (r : result A) : Prop := ∃ a, r = Ok a.

#[global] Instance exn_eq_dec : EqDecision exn.
Proof. solve_decision. Defined.
#[global] Instance result_eq_dec {A} `{EqDecision A} : EqDecision (result A).
Proof. solve_decision. Defined.

(** ** The NumPy operations the notebooks use *)

Module Np.

(** Decimal literals of the notebooks. *)
Definition lit (n : Z) (d : positive) : Qc := Q2Qc (n # d).

(** [np.zeros((n,))] and [np.zeros((Nx, Ny))]. *)
Definition zeros (n : nat) : list Qc := replicate n 0.
Definition zeros2 (Nx Ny : nat) : list (list Qc) := replicate Nx (zeros Ny).

(** Shape of a 2-D array: [Nx] rows, each of length [Ny]. *)
Definition has_shape {A} (Nx Ny : nat) (m : list (list A)) : Prop :=
  length m = Nx ∧ Forall (λ row, length row = Ny) m.

(** Cell [m[i, j]]. *)
Definition cell {A} (m : list (list A)) (i j : nat) : option A :=
  row ← m !! i; row !! j.

(** Cutting a flat buffer into [Nx] consecutive rows of length [Ny]. *)
Fixpoint rows {A} (Nx Ny : nat) (l : list A) : list (list A) :=
  match Nx with
  | O => []
  | S n => take Ny l :: rows n Ny (drop Ny l)
  end.

(** [l.reshape(Nx, Ny)] on a 1-D array: [ValueError] unless the sizes agree. *)
Definition reshape2 {A} (Nx Ny : nat) (l : list A) : result (list (list A)) :=
  if bool_decide (length l = (Nx * Ny)%nat) then Ok (rows Nx Ny l) else Raise ValueError.

(** [m.reshape(n,)] on a 2-D array. *)
Definition reshape1 {A} (n : nat) (m : list (list A)) : result (list A) :=
  if bool_decide (length (concat m) = n) then Ok (concat m) else Raise ValueError.

(** Python slices [l[1:-1]], [l[2:]], [l[:-2]], [l[1:]], [l[:-1]]. *)
Definition sl_1_m1 {A} (l : list A) : list A := take (length l - 2)%nat (drop 1 l).
Definition sl_2_ {A} (l : list A) : list A := drop 2 l.
Definition sl__m2 {A} (l : list A) : list A := take (length l - 2)%nat l.
Definition sl_1_ {A} (l : list A) : list A := drop 1 l.
Definition sl__m1 {A} (l : list A) : list A := take (length l - 1)%nat l.

(** 2-D slice [m[rs, cs]]: [rs] selects rows, [cs] selects columns. *)
Definition sl2 {A} (rs : list (list A) → list (list A)) (cs : list A → list A)
    (m : list (list A)) : list (list A) := cs <$> rs m.

(** Elementwise binary operation on two 2-D arrays of one shape. *)
Definition map2 (f : Qc → Qc → Qc) (a b : list (list Qc)) : list (list Qc) :=
  zip_with (zip_with f) a b.

(** Elementwise operation with a scalar on a 1-D array. *)
Definition map1 (f : Qc → Qc) (a : list Qc) : list Qc := f <$> a.

(** Elementwise operation with a scalar on a 2-D array. *)
Definition smap (f : Qc → Qc) (a : list (list Qc)) : list (list Qc) :=
  map1 f <$> a.

(** [dst[1:-1] = src] where [src] has the shape of the target slice. *)
Definition set_1_m1 {A} (dst src : list A) : list A :=
  if bool_decide (2 ≤ length dst)%nat
  then take 1 dst ++ src ++ drop (length dst - 1)%nat dst
  else dst.

(** [dst[1:-1, 1:-1] = src] where [src] has the shape of the target slice. *)
Definition set_interior {A} (dst src : list (list A)) : list (list A) :=
  set_1_m1 dst (zip_with set_1_m1 (sl_1_m1 dst) src).

(** [np.where(mask)[0]] for the mask [p] applied elementwise to [l]. *)
Fixpoint where_from (p : Qc → bool) (i : nat) (l : list Qc) : list nat :=
  match l with
  | [] => []
  | v :: l' => if p v then i :: where_from p (S i) l' else where_from p (S i) l'
  end.
Definition where_ (p : Qc → bool) (l : list Qc) : list nat := where_from p 0 l.

(** [u[ix, iy] = v]: [IndexError] outside the array. *)
Definition setitem2 {A} (u : list (list A)) (ix iy : nat) (v : A) : result (list (list A)) :=
  match u !! ix with
  | Some row =>
      if bool_decide (iy < length row)%nat then Ok (<[ix := <[iy := v]> row]> u)
      else Raise IndexError
  | None => Raise IndexError
  end.

(** [for i in l: s = body(i, s)], stopping at the first exception. *)
Fixpoint for_each {S} (l : list nat) (body : nat → S → result S) (s : S) : result S :=
  match l with
  | [] => Ok s
  | i :: l' => s' ← body i s; for_each l' body s'
  end.

(** [np.diff(l, axis=0)]: [out[i] = l[i+1] - l[i]]. *)
Definition diff (l : list Qc) : list Qc := zip_with (λ lo hi, hi - lo) l (drop 1 l).

(** Elementwise binary operation on two 1-D arrays with NumPy broadcasting:
    equal lengths combine pointwise, a length-1 operand is stretched, any
    other pair of lengths is a [ValueError]. *)
Definition broadcast2 (f : Qc → Qc → Qc) (a b : list Qc) : result (list Qc) :=
  if bool_decide (length a = length b) then Ok (zip_with f a b)
  else match a, b with
       | [a0], _ => Ok (map1 (f a0) b)
       | _, [b0] => Ok (map1 (λ v, f v b0) a)
       | _, _ => Raise ValueError
       end.

(** Broadcasting a value array to a target slice of length [n]. *)
Definition broadcast_to (n : nat) (v : list Qc) : result (list Qc) :=
  if bool_decide (length v = n) then Ok v
  else match v with
       | [v0] => Ok (replicate n v0)
       | _ => Raise ValueError
       end.

(** [dst[1:] = v] and [dst[:-1] = v]. *)
Definition set_1_ (dst v : list Qc) : result (list Qc) :=
  v' ← broadcast_to (length (sl_1_ dst)) v; Ok (take 1 dst ++ v').
Definition set__m1 (dst v : list Qc) : result (list Qc) :=
  v' ← broadcast_to (length (sl__m1 dst)) v; Ok (v' ++ drop (length dst - 1)%nat dst).

(** A natural number as a float. *)
Definition of_nat (i : nat) : Qc := Q2Qc (inject_Z (Z.of_nat i)).

(** [np.arange(0, n)] as floats. *)
Definition arange (n : nat) : list Qc := of_nat <$> seq 0 n.

(** [np.linspace(start, stop, num)] with the default [endpoint=True]:
    [ValueError] for a negative [num]; otherwise [num] samples
    [start + i * step] with [step = (stop - start) / (num - 1)], the last one
    set to [stop]. *)
Definition linspace (start stop : Qc) (num : Z) : result (list Qc) :=
  if bool_decide (num < 0)%Z then Raise ValueError
  else
    let n := Z.to_nat num in
    let div := (n - 1)%nat in
    let delta := stop - start in
    let y := arange n in
    let y := if bool_decide (0 < div)%nat
             then map1 (λ v, v * (delta / of_nat div) + start) y
             else map1 (λ v, v * delta + start) y in
    Ok (if bool_decide (1 < n)%nat then <[(n - 1)%nat := stop]> y else y).

(** Python [a / b] on scalars: [ZeroDivisionError] for a zero divisor. *)
Definition truediv (a b : Qc) : result Qc :=
  if bool_decide (b = 0) then Raise ZeroDivisionError else Ok (a / b).

(** Python [c ** (-1)] on a scalar. *)
Definition pow_m1 (c : Qc) : result Qc :=
  if bool_decide (c = 0) then Raise ZeroDivisionError else Ok (/ c).

(** Python [int(v)]: truncation towards zero. *)
Definition int (v : Qc) : Z := Z.quot (Qnum v) (Zpos (Qden v)).

(** [y + h * d], elementwise: the update every explicit Runge-Kutta stage
    and step of the integrator is built from. *)
Definition axpy (h : Qc) (y d : list Qc) : list Qc := zip_with (λ v k, v + h * k) y d.

(** [l[k]] on a 1-D array, for a non-negative [k]: [IndexError] outside. *)
Definition getitem (l : list Qc) (k : nat) : result Qc :=
  match l !! k with
  | Some v => Ok v
  | None => Raise IndexError
  end.

(** [m[:, k]] on a 2-D array given by its rows, for a non-negative [k]:
    entry [k] of every row, [IndexError] when [k] is not a column.  (An array
    without rows carries no width in this representation; the model accepts
    every [k] there.) *)
Fixpoint column (m : list (list Qc)) (k : nat) : result (list Qc) :=
  match m with
  | [] => Ok []
  | row :: m' => v ← getitem row k; col ← column m' k; Ok (v :: col)
  end.

(** [np.min(m)] and [np.max(m)] over all entries of an array, given flat:
    [ValueError] on an array without entries. *)
Definition qmin (a b : Qc) : Qc := if bool_decide (a ≤ b) then a else b.
Definition qmax (a b : Qc) : Qc := if bool_decide (a ≤ b) then b else a.
Definition amin (l : list Qc) : result Qc :=
  match l with
  | [] => Raise ValueError
  | v :: l' => Ok (foldl qmin v l')
  end.
Definition amax (l : list Qc) : result Qc :=
  match l with
  | [] => Raise ValueError
  | v :: l' => Ok (foldl qmax v l')
  end.

End Np.

(** ** The 2-D damped wave notebook *)

Module Wave.
Import Np.

(** Grid set-up of the notebook for one axis, as a function of the domain
    length [l] and the resolution [d]:
    [N = int(l/d) + 1; x = np.linspace(0, l, N)]. *)
Definition grid_axis (l d : Qc) : result (Z * list Qc) :=
  r ← truediv l d;
  let N := (int r + 1)%Z in
  x ← linspace 0 l N;
  Ok (N, x).

(** The forcing window of [external_force]: the two masks handed to
    [np.where]. *)
Definition in_x (v : Qc) : bool := bool_decide (lit 5 2 ≤ v) && bool_decide (v ≤ lit 7 2).
Definition in_y (v : Qc) : bool := bool_decide (lit 3 2 ≤ v) && bool_decide (v ≤ lit 9 2).

(** The time test [t < 4.0 and t > 1] of [external_force]. *)
Definition in_time (t : Qc) : bool := bool_decide (t < lit 4 1) && bool_decide (1 < t).

(** [external_force(x, y, t, B, Nx, Ny)]. *)
Definition external_force (x y : list Qc) (t B : Qc) (Nx Ny : nat)
    : result (list (list Qc)) :=
  let u := zeros2 Nx Ny in
  if in_time t then
    let ind_x := where_ in_x x in
    let ind_y := where_ in_y y in
    for_each ind_x (λ ix u, for_each ind_y (λ iy u, setitem2 u ix iy B) u) u
  else Ok u.

(** The state unpacking at the top of [odefun]:
    [y1 = u[:Nx*Ny].reshape(Nx,Ny); y2 = u[Nx*Ny:].reshape(Nx,Ny)]. *)
Definition unpack {A} (Nx Ny : nat) (u : list A) : result (list (list A) * list (list A)) :=
  y1 ← reshape2 Nx Ny (take (Nx * Ny)%nat u);
  y2 ← reshape2 Nx Ny (drop (Nx * Ny)%nat u);
  Ok (y1, y2).

(** The state packing at the bottom of [odefun]:
    [np.concatenate((dy1dt.reshape(Nx*Ny,), dy2dt.reshape(Nx*Ny,)))]. *)
Definition pack {A} (Nx Ny : nat) (f1 f2 : list (list A)) : result (list A) :=
  v1 ← reshape1 (Nx * Ny)%nat f1;
  v2 ← reshape1 (Nx * Ny)%nat f2;
  Ok (v1 ++ v2).

(** The value assigned to [dy2dt[1:-1, 1:-1]]:
    [c**2*((y1[2:,1:-1] - 2*y1[1:-1,1:-1] + y1[:-2,1:-1])/(dx)**2
         + (y1[1:-1,2:] - 2*y1[1:-1,1:-1] + y1[1:-1,:-2])/(dy)**2)]. *)
Definition interior_term (c dx dy : Qc) (y1 : list (list Qc)) : list (list Qc) :=
  let mid := sl2 sl_1_m1 sl_1_m1 y1 in
  let two_mid := smap (λ v, lit 2 1 * v) mid in
  let xx := map2 Qcplus (map2 Qcminus (sl2 sl_2_ sl_1_m1 y1) two_mid) (sl2 sl__m2 sl_1_m1 y1) in
  let yy := map2 Qcplus (map2 Qcminus (sl2 sl_1_m1 sl_2_ y1) two_mid) (sl2 sl_1_m1 sl__m2 y1) in
  smap (λ v, c ^ 2 * v)
       (map2 Qcplus (smap (λ v, v / dx ^ 2) xx) (smap (λ v, v / dy ^ 2) yy)).

(** [odefun(u, t, B, a, c, x, y, dx, dy, Nx, Ny)]. *)
Definition odefun (u : list Qc) (t B a c : Qc) (x y : list Qc) (dx dy : Qc)
    (Nx Ny : nat) : result (list Qc) :=
  '(y1, y2) ← unpack Nx Ny u;
  let dy1dt := y2 in
  f_ext ← external_force x y t B Nx Ny;
  let dy2dt := zeros2 Nx Ny in
  let dy2dt := set_interior dy2dt (interior_term c dx dy y1) in
  let dy2dt := map2 Qcplus (map2 Qcminus dy2dt (smap (λ v, a * v) y2)) f_ext in
  pack Nx Ny dy1dt dy2dt.

(** A cell of the first or last row or column of an [Nx]-by-[Ny] array. *)
Definition boundary (Nx Ny i j : nat) : Prop :=
  (i < Nx)%nat ∧ (j < Ny)%nat ∧
  (i = 0%nat ∨ i = (Nx - 1)%nat ∨ j = 0%nat ∨ j = (Ny - 1)%nat).

(** Position of cell [(i, j)] of the first and of the second field in the
    packed vector. *)
Definition pos1 (Nx Ny i j : nat) : nat := (i * Ny + j)%nat.
Definition pos2 (Nx Ny i j : nat) : nat := (Nx * Ny + (i * Ny + j))%nat.

(** Both fields of a packed vector vanish on every boundary cell. *)
Definition boundary_zero (Nx Ny : nat) (u : list Qc) : Prop :=
  ∀ i j, boundary Nx Ny i j →
    u !! pos1 Nx Ny i j = Some 0 ∧ u !! pos2 Nx Ny i j = Some 0.

(** The forcing window as the notebook states it:
    [1 < t < 4], [2.5 <= x <= 3.5], [1.5 <= y <= 4.5]. *)
Definition in_window (xi yj t : Qc) : Prop :=
  (lit 5 2 ≤ xi ∧ xi ≤ lit 7 2) ∧ (lit 3 2 ≤ yj ∧ yj ≤ lit 9 2) ∧ (1 < t ∧ t < lit 4 1).

(** The loops of [external_force] run, and the indices picked by [np.where]
    do not all fit the [Nx]-by-[Ny] array. *)
Definition misfit (x y : list Qc) (t : Qc) (Nx Ny : nat) : Prop :=
  in_time t = true ∧ where_ in_x x ≠ [] ∧ where_ in_y y ≠ [] ∧
  ¬ (Forall (λ ix, (ix < Nx)%nat) (where_ in_x x) ∧
     Forall (λ iy, (iy < Ny)%nat) (where_ in_y y)).

(** Cells away from the first and last row and column: the target of the
    slice assignment [dy2dt[1:-1, 1:-1] = ...]. *)
Definition is_interior (Nx Ny i j : nat) : bool :=
  bool_decide ((1 ≤ i)%nat ∧ (i < Nx - 1)%nat ∧ (1 ≤ j)%nat ∧ (j < Ny - 1)%nat).

(** The assigned value at cell [(i, j)], read off the packed state index by
    index: [c**2] times the five-point second difference of [y1]. *)
Definition stencil (c dx dy : Qc) (Nx Ny : nat) (u : list Qc) (i j : nat) : Qc :=
  c ^ 2
  * ((u !!! pos1 Nx Ny (i + 1) j - lit 2 1 * u !!! pos1 Nx Ny i j
      + u !!! pos1 Nx Ny (i - 1) j) / dx ^ 2
     + (u !!! pos1 Nx Ny i (j + 1) - lit 2 1 * u !!! pos1 Nx Ny i j
        + u !!! pos1 Nx Ny i (j - 1)) / dy ^ 2).

(** Cell [(i, j)] of [dy2dt] after the slice assignment, before damping and
    force are added: the stencil inside, the initial 0 on the boundary. *)
Definition laplacian_cell (c dx dy : Qc) (Nx Ny : nat) (u : list Qc) (i j : nat) : Qc :=
  if is_interior Nx Ny i j then stencil c dx dy Nx Ny u i j else 0.

(** No boundary grid point lies in the spatial forcing window. *)
Definition forcing_off_boundary (x y : list Qc) (Nx Ny : nat) : Prop :=
  ∀ i j xi yj, boundary Nx Ny i j → x !! i = Some xi → y !! j = Some yj →
    in_x xi && in_y yj = false.

(** The constants of the notebook: resolution, domain lengths, damping,
    force magnitude and wave speed. *)
Module Notebook.
Definition dx : Qc := lit 1 4.
Definition dy : Qc := lit 1 4.
Definition lx : Qc := lit 10 1.
Definition ly : Qc := lit 10 1.
Definition a : Qc := lit 1 10.
Definition B : Qc := 1.
Definition c : Qc := lit 1 2.
End Notebook.

End Wave.

(** ** The 1-D heat notebook *)

Module Heat.
Import Np.

(** The [params] dictionary, with its five keys as fields. *)
Record params : Type := Params {
  c : Qc;
  q : list Qc;
  x : list Qc;
  a : Qc;
  Nx : nat
}.

(** The net-flux term [dq] of [odefun]:
    [dq_left[1:] = -1.0*np.diff(q); dq_right[:-1] = np.diff(q);
     dq = dq_left + dq_right]. *)
Definition dq (p : params) : result (list Qc) :=
  let dq_left := zeros (Nx p) in
  let dq_right := zeros (Nx p) in
  dq_left ← set_1_ dq_left (map1 (λ v, lit (-1) 1 * v) (diff (q p)));
  dq_right ← set__m1 dq_right (diff (q p));
  broadcast2 Qcplus dq_left dq_right.

(** The arrays [dq_left] and [dq_right] once their slices are assigned,
    for a [q] of [Nx] entries. *)
Definition dq_left (p : params) : list Qc :=
  take 1 (zeros (Nx p)) ++ map1 (λ v, lit (-1) 1 * v) (diff (q p)).
Definition dq_right (p : params) : list Qc :=
  diff (q p) ++ drop (Nx p - 1)%nat (zeros (Nx p)).

(** [odefun(t, y, params)]. *)
Definition odefun (t : Qc) (y : list Qc) (p : params) : result (list Qc) :=
  let s := map1 (λ v, v * a p) y in
  dq ← dq p;
  cinv ← pow_m1 (c p);
  quot ← broadcast2 Qcdiv dq (diff (x p));
  inner ← broadcast2 Qcminus quot s;
  Ok (map1 (λ v, - cinv * v) inner).

(** Parameter sets the notebook builds: [q] has [Nx] entries, [x] has
    [Nx + 1] coordinates with no two consecutive ones equal, [c] is not
    zero.  (A zero spacing or a zero [c] is a division by zero, whose
    floating-point outcome the rational model does not cover.) *)
Definition well_formed (p : params) : Prop :=
  length (q p) = Nx p ∧ length (x p) = S (Nx p) ∧ c p ≠ 0 ∧
  Forall (λ d, d ≠ 0) (diff (x p)).

(** The net-flux term as the specification words it:
    [-(q[i] - q[i-1])] for [i >= 1] plus [q[i+1] - q[i]] for [i < Nx - 1]. *)
Definition dq_spec (q : list Qc) (Nx i : nat) : Qc :=
  (if bool_decide (1 ≤ i)%nat then - (q !!! i - q !!! (i - 1)%nat) else 0)
  + (if bool_decide (i < Nx - 1)%nat then q !!! (i + 1)%nat - q !!! i else 0).

(** The values of the notebook: [Nx = 10], [c = 5], [a = 0.01],
    [x = np.linspace(0,1,Nx+1)], and the initial profile
    [T_init = np.ones((10,)); T_init[5] = 4].  The flux [q] is drawn at
    random ([np.random.random((Nx,))*0.1]) and stays a parameter. *)
Module Notebook.
Definition Nx : nat := 10.
Definition x : result (list Qc) := linspace 0 1 (Z.of_nat Nx + 1).
Definition params (q x : list Qc) : params := Params (lit 5 1) q x (lit 1 100) Nx.
Definition T_init : list Qc := <[5%nat := lit 4 1]> (replicate 10 1).
End Notebook.

End Heat.

(** ** The drivers: the two [solve_ivp] calls *)

(** The object [solve_ivp] returns, with the fields the notebooks list. *)
Record OdeResult : Type := {
  sol_t : list Qc;
  sol_y : list (list Qc);
  status : Z;
  message : string;
  success : bool
}.

(** The integrator's interface: right-hand side, time span, initial state,
    evaluation times.  It returns its result object, or leaves by an
    exception. *)
Definition integrator : Type :=
  (Qc → list Qc → result (list Qc)) → Qc * Qc → list Qc → list Qc → result OdeResult.

Module Driver.
Import Np.

(** Heat notebook:
    [solution = solve_ivp(lambda t,y: odefun(t,y,params), (0, 50), T_init,
                          method='RK45', t_eval = np.linspace(0,50,51))]. *)
Definition heat (solve_ivp : integrator) (p : Heat.params) (T_init : list Qc)
    : result OdeResult :=
  t_eval ← linspace 0 (lit 50 1) 51;
  solve_ivp (λ t y, Heat.odefun t y p) (0, lit 50 1) T_init t_eval.

(** Wave notebook:
    [u_start = np.zeros((2*Nx*Ny,))
     sol = solve_ivp(lambda t,u: odefun(u,t,B,a,c,x,y,dx,dy,Nx,Ny), (0, 100),
                     u_start, t_eval=np.linspace(0,100, 101))]. *)
Definition wave (solve_ivp : integrator) (B a c : Qc) (x y : list Qc) (dx dy : Qc)
    (Nx Ny : nat) : result OdeResult :=
  let u_start := zeros (2 * Nx * Ny) in
  t_eval ← linspace 0 (lit 100 1) 101;
  solve_ivp (λ t u, Wave.odefun u t B a c x y dx dy Nx Ny) (0, lit 100 1) u_start t_eval.

(** An integrator that gives up at once, the way [solve_ivp] reports a
    collapsed step size: status [-1], [success = False], no samples. *)
Definition failing_ivp : integrator := λ _ _ _ _,
  Ok {| sol_t := []; sol_y := []; status := (-1)%Z;
        message := "Required step size is less than spacing between numbers.";
        success := false |}.

End Driver.

(** ** The data handed to the plots *)

Module Plot.
Import Np.

(** Wave notebook, [plot_solution(Time)]: the image
    [sol.y[:Nx*Ny, Time].reshape(Nx, Ny)] given to [ax.imshow] and the time
    [sol.t[Time]] printed in the title.  The drawing calls themselves are
    matplotlib's. *)
Definition wave (sol : OdeResult) (Nx Ny Time : nat) : result (list (list Qc) * Qc) :=
  col ← column (take (Nx * Ny)%nat (sol_y sol)) Time;
  img ← reshape2 Nx Ny col;
  t ← getitem (sol_t sol) Time;
  Ok (img, t).

(** Heat notebook, [plot_solution(iy)]: the abscissae [params['x'][1:]] and
    ordinates [solution.y[:, iy]] given to [ax.plot], the time
    [solution.t[iy]] of the title, and the limits
    [[np.min(solution.y), np.max(solution.y)]] given to [ax.set_ylim]. *)
Definition heat (sol : OdeResult) (p : Heat.params) (iy : nat)
    : result (list Qc * list Qc * Qc * (Qc * Qc)) :=
  let xs := sl_1_ (Heat.x p) in
  ys ← column (sol_y sol) iy;
  t ← getitem (sol_t sol) iy;
  lo ← amin (concat (sol_y sol));
  hi ← amax (concat (sol_y sol));
  Ok (xs, ys, t, (lo, hi)).

End Plot.

(** ** The arithmetic as a parameter

    Sums and differences of results and the number of grid points depend on
    rounding, so the expression trees of the heat right-hand side and of the
    grid set-up are also written over an arbitrary arithmetic: a number type
    with the operations the code applies, in the order and association in
    which the code applies them.  Nothing is assumed of the operations.
    [binary64] interprets them as IEEE 754 double precision, which is what
    the notebooks run on; [rational] interprets them exactly, and gives back
    [Heat.odefun] and [Wave.grid_axis] above. *)

Record arithmetic : Type := Arithmetic {
  num : Type;
  fzero : num;                    (* 0.0 *)
  fneg1 : num;                    (* -1.0 *)
  fnat : nat → num;               (* an array index as a float *)
  fadd : num → num → num;         (* a + b *)
  fsub : num → num → num;         (* a - b *)
  fmul : num → num → num;         (* a * b *)
  fdiv : num → num → num;         (* a / b *)
  fopp : num → num;               (* -a *)
  frecip : num → num;             (* a ** (-1), for a != 0 *)
  fis_zero : num → bool;          (* a == 0 *)
  fint : num → result Z           (* int(a) *)
}.

(** Exact rational arithmetic. *)
Definition rational : arithmetic := {|
  num := Qc;
  fzero := 0;
  fneg1 := Np.lit (-1) 1;
  fnat := Np.of_nat;
  fadd := Qcplus;
  fsub := Qcminus;
  fmul := Qcmult;
  fdiv := Qcdiv;
  fopp := Qcopp;
  frecip := Qcinv;
  fis_zero := λ v, bool_decide (v = 0);
  fint := λ v, Ok (Np.int v)
|}.

(** Python [int(v)] on a float: [ValueError] for NaN, [OverflowError] for
    an infinity, truncation towards zero for a finite value
    [(-1)^s * m * 2^e]. *)
Definition int_of_float (v : float) : result Z :=
  match Prim2SF v with
  | S754_nan => Raise ValueError
  | S754_infinity _ => Raise OverflowError
  | S754_zero _ => Ok 0%Z
  | S754_finite s m e =>
      let k := if bool_decide (0 ≤ e)%Z then (Zpos m * 2 ^ e)%Z
               else (Zpos m / 2 ^ (- e))%Z in
      Ok (if s then (- k)%Z else k)
  end.

(** IEEE 754 binary64 with round-to-nearest-even, the arithmetic of Python
    floats and of NumPy [float64] arrays.  [c ** (-1)] is taken as the
    correctly rounded reciprocal; an index is converted exactly (indices
    stay far below [2^53]). *)
Definition binary64 : arithmetic := {|
  num := float;
  fzero := 0%float;
  fneg1 := (-1)%float;
  fnat := λ i, PrimFloat.of_uint63 (Uint63.of_Z (Z.of_nat i));
  fadd := PrimFloat.add;
  fsub := PrimFloat.sub;
  fmul := PrimFloat.mul;
  fdiv := PrimFloat.div;
  fopp := PrimFloat.opp;
  frecip := λ v, (1 / v)%float;
  fis_zero := λ v, PrimFloat.eqb v 0%float;
  fint := int_of_float
|}.

(** The NumPy operations of the heat right-hand side and of the grid
    set-up, over an arithmetic. *)
Module NpA.

(** Elementwise operation with a scalar on a 1-D array. *)
Definition map1 {A} (f : A → A) (a : list A) : list A := f <$> a.

(** Broadcasting, for arrays of any element type: equal lengths combine
    pointwise, a length-1 operand is stretched, any other pair of lengths
    is a [ValueError]. *)
Definition broadcast2 {A} (f : A → A → A) (a b : list A) : result (list A) :=
  if bool_decide (length a = length b) then Ok (zip_with f a b)
  else match a, b with
       | [a0], _ => Ok (map1 (f a0) b)
       | _, [b0] => Ok (map1 (λ v, f v b0) a)
       | _, _ => Raise ValueError
       end.

(** Broadcasting a value array to a target slice of length [n]. *)
Definition broadcast_to {A} (n : nat) (v : list A) : result (list A) :=
  if bool_decide (length v = n) then Ok v
  else match v with
       | [v0] => Ok (replicate n v0)
       | _ => Raise ValueError
       end.

(** [dst[1:] = v] and [dst[:-1] = v]. *)
Definition set_1_ {A} (dst v : list A) : result (list A) :=
  v' ← broadcast_to (length (Np.sl_1_ dst)) v; Ok (take 1 dst ++ v').
Definition set__m1 {A} (dst v : list A) : result (list A) :=
  v' ← broadcast_to (length (Np.sl__m1 dst)) v; Ok (v' ++ drop (length dst - 1)%nat dst).

Section Ops.
Context (F : arithmetic).

(** [np.zeros((n,))]. *)
Definition zeros (n : nat) : list (num F) := replicate n (fzero F).

(** [np.diff(l, axis=0)]: [out[i] = l[i+1] - l[i]]. *)
Definition diff (l : list (num F)) : list (num F) :=
  zip_with (λ lo hi, fsub F hi lo) l (drop 1 l).

(** Python [a / b] on scalars: [ZeroDivisionError] for a zero divisor. *)
Definition truediv (a b : num F) : result (num F) :=
  if fis_zero F b then Raise ZeroDivisionError else Ok (fdiv F a b).

(** Python [c ** (-1)] on a scalar. *)
Definition pow_m1 (c : num F) : result (num F) :=
  if fis_zero F c then Raise ZeroDivisionError else Ok (frecip F c).

(** [np.arange(0, n)] as floats. *)
Definition arange (n : nat) : list (num F) := fnat F <$> seq 0 n.

(** [np.linspace(start, stop, num)] with the default [endpoint=True], as
    NumPy computes it: [ValueError] for a negative [num]; otherwise
    [div = num - 1; delta = stop - start; y = arange(0, num)], then for
    [div > 0] either [y = y * step] with [step = delta / div] or, when that
    step is 0, [y = y / div * delta]; for [div = 0], [y = y * delta]; then
    [y += start], and for [num > 1] the last sample is overwritten by
    [stop]. *)
Definition linspace (start stop : num F) (n : Z) : result (list (num F)) :=
  if bool_decide (n < 0)%Z then Raise ValueError
  else
    let n := Z.to_nat n in
    let div := (n - 1)%nat in
    let delta := fsub F stop start in
    let y := arange n in
    let y := if bool_decide (0 < div)%nat then
               let step := fdiv F delta (fnat F div) in
               if fis_zero F step
               then map1 (λ v, fmul F (fdiv F v (fnat F div)) delta) y
               else map1 (λ v, fmul F v step) y
             else map1 (λ v, fmul F v delta) y in
    let y := map1 (λ v, fadd F v start) y in
    Ok (if bool_decide (1 < n)%nat then <[(n - 1)%nat := stop]> y else y).

(** Sample [i] of [np.linspace(start, stop, div + 1)] for [div > 0], as
    computed before the last sample is overwritten. *)
Definition linspace_sample (start stop : num F) (div i : nat) : num F :=
  let delta := fsub F stop start in
  let step := fdiv F delta (fnat F div) in
  fadd F (if fis_zero F step then fmul F (fdiv F (fnat F i) (fnat F div)) delta
          else fmul F (fnat F i) step)
       start.


End Ops.

End NpA.

(** The heat right-hand side over an arithmetic. *)
Module HeatA.
Section Ops.
Context (F : arithmetic).

(** The [params] dictionary. *)
Record params : Type := Params {
  c : num F;
  q : list (num F);
  x : list (num F);
  a : num F;
  Nx : nat
}.

(** The net-flux term:
    [dq_left[1:] = -1.0*np.diff(q); dq_right[:-1] = np.diff(q);
     dq = dq_left + dq_right]. *)
Definition dq (p : params) : result (list (num F)) :=
  let dq_left := NpA.zeros F (Nx p) in
  let dq_right := NpA.zeros F (Nx p) in
  dq_left ← NpA.set_1_ dq_left (NpA.map1 (fmul F (fneg1 F)) (NpA.diff F (q p)));
  dq_right ← NpA.set__m1 dq_right (NpA.diff F (q p));
  NpA.broadcast2 (fadd F) dq_left dq_right.

(** The arrays [dq_left] and [dq_right] once their slices are assigned,
    for a [q] of [Nx] entries. *)
Definition dq_left (p : params) : list (num F) :=
  take 1 (NpA.zeros F (Nx p)) ++ NpA.map1 (fmul F (fneg1 F)) (NpA.diff F (q p)).
Definition dq_right (p : params) : list (num F) :=
  NpA.diff F (q p) ++ drop (Nx p - 1)%nat (NpA.zeros F (Nx p)).

(** [odefun(t, y, params)]:
    [s = y*params['a']; ...;
     dTdt = -params['c']**(-1) * (dq/np.diff(params['x'], axis=0) - s)]. *)
Definition odefun (t : num F) (y : list (num F)) (p : params) : result (list (num F)) :=
  let s := NpA.map1 (λ v, fmul F v (a p)) y in
  dq ← dq p;
  cinv ← NpA.pow_m1 F (c p);
  quot ← NpA.broadcast2 (fdiv F) dq (NpA.diff F (x p));
  inner ← NpA.broadcast2 (fsub F) quot s;
  Ok (NpA.map1 (fmul F (fopp F cinv)) inner).

(** Parameter sets the notebook builds: [q] has [Nx] entries, [x] has
    [Nx + 1] coordinates with no two consecutive ones equal, [c] is not
    zero, so that no division by zero occurs. *)
Definition well_formed (p : params) : Prop :=
  length (q p) = Nx p ∧ length (x p) = S (Nx p) ∧ fis_zero F (c p) = false ∧
  Forall (λ d, fis_zero F d = false) (NpA.diff F (x p)).

End Ops.

Arguments c {F} p.
Arguments q {F} p.
Arguments x {F} p.
Arguments a {F} p.
Arguments Nx {F} p.

End HeatA.

(** The grid set-up over an arithmetic. *)
Module GridA.
Section Ops.
Context (F : arithmetic).

(** [N = int(l/d) + 1; x = np.linspace(0, l, N)]. *)
Definition grid_axis (l d : num F) : result (Z * list (num F)) :=
  r ← NpA.truediv F l d;
  n ← fint F r;
  let N := (n + 1)%Z in
  x ← NpA.linspace F (fzero F) l N;
  Ok (N, x).

End Ops.
End GridA.

(** * Properties *)

Import Np.

(** ** The result monad *)

Lemma bind_Ok {A B} (m : result A) (f : A → result B) (a : A) :
  m = Ok a → m ≫= f = f a.
Proof. by intros ->. Qed.

Lemma bind_Raise {A B} (m : result A) (f : A → result B) (e : exn) :
  m = Raise e → m ≫= f = Raise e.
Proof. by intros ->. Qed.

(** ** Shapes, reshaping and flat positions *)

Section Shapes.
Context {A : Type}.
Implicit Types (l : list A) (m : list (list A)).

Lemma length_rows Nx Ny l : length (rows Nx Ny l) = Nx.
Proof. revert l. induction Nx as [|n IH]; intros l; simpl; [done|]. by rewrite IH. Qed.

Lemma rows_shape Nx Ny l :
  length l = (Nx * Ny)%nat → has_shape Nx Ny (rows Nx Ny l).
Proof.
  intros Hl. split; [apply length_rows|].
  revert l Hl. induction Nx as [|n IH]; intros l Hl; simpl; constructor.
  - rewrite length_take. simpl in Hl. lia.
  - apply IH. rewrite length_drop. simpl in Hl. lia.
Qed.

Lemma concat_rows Nx Ny l :
  length l = (Nx * Ny)%nat → concat (rows Nx Ny l) = l.
Proof.
  revert l. induction Nx as [|n IH]; intros l Hl; simpl in *.
  - symmetry. by apply nil_length_inv.
  - rewrite IH; [apply take_drop|]. rewrite length_drop. lia.
Qed.

Lemma rows_concat Nx Ny m : has_shape Nx Ny m → rows Nx Ny (concat m) = m.
Proof.
  intros [Hn Hrows]. revert Nx Hn.
  induction Hrows as [|row m Hrow _ IH]; intros Nx Hn; simpl in *; subst Nx; [done|].
  simpl. rewrite take_app_length', drop_app_length' by done.
  by rewrite IH.
Qed.

Lemma length_concat_shape Nx Ny m :
  has_shape Nx Ny m → length (concat m) = (Nx * Ny)%nat.
Proof.
  intros [Hn Hrows]. revert Nx Hn.
  induction Hrows as [|row m Hrow _ IH]; intros Nx Hn; simpl in *; subst Nx; [done|].
  rewrite length_app, (IH _ eq_refl). simpl. lia.
Qed.

Lemma lookup_concat_shape Nx Ny m i j :
  has_shape Nx Ny m → (j < Ny)%nat → concat m !! (i * Ny + j)%nat = cell m i j.
Proof.
  intros [Hn Hrows] Hj. clear Hn. revert i.
  induction Hrows as [|row m Hrow _ IH]; intros i; simpl.
  - by rewrite lookup_nil.
  - destruct i as [|i]; unfold cell; simpl.
    + rewrite lookup_app_l by lia. done.
    + rewrite lookup_app_r by lia.
      replace (Ny + i * Ny + j - length row)%nat with (i * Ny + j)%nat by lia.
      apply IH.
Qed.

Lemma cell_rows Nx Ny l i j :
  length l = (Nx * Ny)%nat → (i < Nx)%nat → (j < Ny)%nat →
  cell (rows Nx Ny l) i j = l !! (i * Ny + j)%nat.
Proof.
  intros Hl Hi Hj.
  rewrite <- (lookup_concat_shape Nx Ny) by (done || by apply rows_shape).
  by rewrite concat_rows.
Qed.

Lemma reshape2_Ok Nx Ny l :
  length l = (Nx * Ny)%nat → reshape2 Nx Ny l = Ok (rows Nx Ny l).
Proof. intros Hl. unfold reshape2. by rewrite bool_decide_eq_true_2. Qed.

Lemma reshape2_Raise Nx Ny l :
  length l ≠ (Nx * Ny)%nat → reshape2 Nx Ny l = Raise ValueError.
Proof. intros Hl. unfold reshape2. by rewrite bool_decide_eq_false_2. Qed.

Lemma reshape1_Ok Nx Ny m :
  has_shape Nx Ny m → reshape1 (Nx * Ny) m = Ok (concat m).
Proof.
  intros Hm. unfold reshape1.
  by rewrite bool_decide_eq_true_2 by by apply length_concat_shape.
Qed.

Lemma pack_Ok Nx Ny (f1 f2 : list (list A)) :
  has_shape Nx Ny f1 → has_shape Nx Ny f2 →
  Wave.pack Nx Ny f1 f2 = Ok (concat f1 ++ concat f2).
Proof.
  intros H1 H2. unfold Wave.pack.
  by rewrite (reshape1_Ok _ _ _ H1), (reshape1_Ok _ _ _ H2).
Qed.

Lemma unpack_Ok Nx Ny (u : list A) :
  length u = (2 * Nx * Ny)%nat →
  Wave.unpack Nx Ny u
  = Ok (rows Nx Ny (take (Nx * Ny) u), rows Nx Ny (drop (Nx * Ny) u)).
Proof.
  intros Hu. unfold Wave.unpack.
  rewrite !reshape2_Ok; [done|..]; rewrite ?length_take, ?length_drop; lia.
Qed.

Lemma unpack_Raise Nx Ny (u : list A) :
  length u ≠ (2 * Nx * Ny)%nat → Wave.unpack Nx Ny u = Raise ValueError.
Proof.
  intros Hu. unfold Wave.unpack.
  destruct (decide (length (take (Nx * Ny) u) = (Nx * Ny)%nat)) as [Ht|Ht].
  - rewrite (reshape2_Ok _ _ _ Ht). simpl.
    rewrite reshape2_Raise; [done|].
    rewrite length_take in Ht. rewrite length_drop. lia.
  - by rewrite (reshape2_Raise _ _ _ Ht).
Qed.

End Shapes.

(** C4 - packing then unpacking recovers both fields, value for value and
    shape for shape: for every pair of [Nx]-by-[Ny] fields, the packing step
    of [odefun] succeeds with a vector of length [2*Nx*Ny], and the unpacking
    step applied to that vector returns exactly the two fields. *)
Theorem unpack_pack_roundtrip {A} (Nx Ny : nat) (f1 f2 : list (list A)) :
  has_shape Nx Ny f1 → has_shape Nx Ny f2 →
  ∃ v, Wave.pack Nx Ny f1 f2 = Ok v ∧ length v = (2 * Nx * Ny)%nat ∧
       Wave.unpack Nx Ny v = Ok (f1, f2).
Proof.
  intros H1 H2. exists (concat f1 ++ concat f2).
  assert (L1 := length_concat_shape _ _ _ H1).
  assert (L2 := length_concat_shape _ _ _ H2).
  split; [by apply pack_Ok|].
  assert (Hlen : length (concat f1 ++ concat f2) = (2 * Nx * Ny)%nat)
    by (rewrite length_app; lia).
  split; [done|].
  rewrite unpack_Ok by done.
  rewrite <- L1. rewrite take_app_length, drop_app_length.
  by rewrite !rows_concat.
Qed.

Lemma unpack_pack_roundtrip_witness :
  has_shape 2 2 [[1%nat; 2%nat]; [3%nat; 4%nat]] ∧
  has_shape 2 2 [[5%nat; 6%nat]; [7%nat; 8%nat]] ∧
  ∃ v, Wave.pack 2 2 [[1%nat; 2%nat]; [3%nat; 4%nat]] [[5%nat; 6%nat]; [7%nat; 8%nat]] = Ok v ∧
       length v = 8%nat ∧
       Wave.unpack 2 2 v = Ok ([[1%nat; 2%nat]; [3%nat; 4%nat]], [[5%nat; 6%nat]; [7%nat; 8%nat]]).
Proof.
  assert (S1 : has_shape 2 2 [[1%nat; 2%nat]; [3%nat; 4%nat]])
    by (split; [reflexivity | repeat constructor]).
  assert (S2 : has_shape 2 2 [[5%nat; 6%nat]; [7%nat; 8%nat]])
    by (split; [reflexivity | repeat constructor]).
  split; [exact S1|]. split; [exact S2|].
  exact (unpack_pack_roundtrip 2 2 _ _ S1 S2).
Defined.

(** X1 - the converse round trip: unpacking a vector of the packed size
    [2*Nx*Ny] succeeds with two [Nx]-by-[Ny] fields, and packing these two
    fields again gives the vector back. *)
Lemma pack_unpack_roundtrip {A} (Nx Ny : nat) (u : list A) :
  length u = (2 * Nx * Ny)%nat →
  ∃ y1 y2, Wave.unpack Nx Ny u = Ok (y1, y2) ∧
           has_shape Nx Ny y1 ∧ has_shape Nx Ny y2 ∧
           Wave.pack Nx Ny y1 y2 = Ok u.
Proof.
  intros Hu.
  assert (Ht : length (take (Nx * Ny) u) = (Nx * Ny)%nat) by (rewrite length_take; lia).
  assert (Hd : length (drop (Nx * Ny) u) = (Nx * Ny)%nat) by (rewrite length_drop; lia).
  eexists _, _. split; [by apply unpack_Ok|].
  assert (S1 := rows_shape _ _ _ Ht). assert (S2 := rows_shape _ _ _ Hd).
  split; [done|]. split; [done|].
  rewrite pack_Ok by done. by rewrite !concat_rows, take_drop.
Qed.

(** ** Arrays of zeros, item assignment and loops *)

Lemma length_zeros n : length (zeros n) = n.
Proof. apply length_replicate. Qed.

Lemma lookup_zeros n i : (i < n)%nat → zeros n !! i = Some 0.
Proof. intros Hi. by apply lookup_replicate_2. Qed.

Lemma zeros2_shape Nx Ny : has_shape Nx Ny (zeros2 Nx Ny).
Proof.
  split; [apply length_replicate|].
  apply Forall_replicate, length_zeros.
Qed.

Lemma cell_zeros2 Nx Ny i j :
  (i < Nx)%nat → (j < Ny)%nat → cell (zeros2 Nx Ny) i j = Some 0.
Proof.
  intros Hi Hj. unfold cell, zeros2.
  rewrite lookup_replicate_2 by done. simpl. by apply lookup_zeros.
Qed.

Lemma cell_Some_lt {A} Nx Ny (m : list (list A)) i j v :
  has_shape Nx Ny m → cell m i j = Some v → (i < Nx)%nat ∧ (j < Ny)%nat.
Proof.
  intros [Hn Hrows] Hc. unfold cell in Hc.
  destruct (m !! i) as [row|] eqn:Hrow; [|done]. simpl in Hc.
  split.
  - rewrite <- Hn. by eapply lookup_lt_Some.
  - rewrite Forall_lookup in Hrows. rewrite <- (Hrows _ _ Hrow).
    by eapply lookup_lt_Some.
Qed.

Lemma cell_is_Some {A} Nx Ny (m : list (list A)) i j :
  has_shape Nx Ny m → (i < Nx)%nat → (j < Ny)%nat → is_Some (cell m i j).
Proof.
  intros [Hn Hrows] Hi Hj. unfold cell.
  destruct (lookup_lt_is_Some_2 m i) as [row Hrow]; [lia|].
  rewrite Hrow. simpl. apply lookup_lt_is_Some_2.
  rewrite Forall_lookup in Hrows. by rewrite (Hrows _ _ Hrow).
Qed.

Lemma setitem2_Ok {A} Nx Ny (u : list (list A)) ix iy v :
  has_shape Nx Ny u → (ix < Nx)%nat → (iy < Ny)%nat →
  ∃ u', setitem2 u ix iy v = Ok u' ∧ has_shape Nx Ny u' ∧
        ∀ i j, cell u' i j = if decide (i = ix ∧ j = iy) then Some v else cell u i j.
Proof.
  intros [Hn Hrows] Hix Hiy. unfold setitem2.
  destruct (lookup_lt_is_Some_2 u ix) as [row Hrow]; [lia|].
  assert (Hlen : length row = Ny) by (rewrite Forall_lookup in Hrows; eauto).
  rewrite Hrow, bool_decide_eq_true_2 by lia.
  eexists. split; [done|]. split.
  - split; [by rewrite length_insert|].
    apply Forall_insert; [done|]. by rewrite length_insert.
  - intros i j. unfold cell.
    destruct (decide (i = ix)) as [->|Hne].
    + rewrite list_lookup_insert_eq by lia. simpl. rewrite Hrow. simpl.
      destruct (decide (j = iy)) as [->|Hne].
      * rewrite list_lookup_insert_eq by lia. by rewrite decide_True.
      * rewrite list_lookup_insert_ne by done. rewrite decide_False by (by intros [_ ?]). done.
    + rewrite list_lookup_insert_ne by done. rewrite decide_False by (by intros [? _]). done.
Qed.

(** Loop rule: an invariant indexed by the list of indices already visited. *)
Lemma for_each_inv {S} (P : list nat → S → Prop) (body : nat → S → result S) l s :
  P [] s →
  (∀ seen i s, P seen s → i ∈ l → ∃ s', body i s = Ok s' ∧ P (seen ++ [i]) s') →
  ∃ s', for_each l body s = Ok s' ∧ P l s'.
Proof.
  intros H0 Hstep.
  cut (∀ seen s, P seen s → (∀ i, i ∈ l → i ∈ l) →
         ∃ s', for_each l body s = Ok s' ∧ P (seen ++ l) s').
  { intros Hcut. apply (Hcut [] s); done. }
  clear s H0. revert Hstep. generalize l at 1 3 as l0. intros l0 Hstep.
  induction l as [|i l IH]; intros seen s HP Hsub; simpl.
  - exists s. by rewrite app_nil_r.
  - destruct (Hstep seen i s HP) as (s' & Hb & HP'); [apply Hsub; left|].
    rewrite Hb. simpl.
    destruct (IH (seen ++ [i]) s' HP') as (s'' & Hf & HP'').
    { intros k Hk. apply Hsub. by right. }
    exists s''. split; [done|]. by rewrite <- app_assoc in HP''.
Qed.

(** ** [np.where] *)

Lemma elem_of_where_from p k l i :
  i ∈ where_from p k l ↔ (k ≤ i)%nat ∧ ∃ v, l !! (i - k)%nat = Some v ∧ p v = true.
Proof.
  revert k. induction l as [|v l IH]; intros k; simpl.
  - split; [by intros ?%elem_of_nil|]. by intros (_ & w & ? & _).
  - assert (Htail : i ∈ where_from p (S k) l ↔
                    (k < i)%nat ∧ ∃ w, (v :: l) !! (i - k)%nat = Some w ∧ p w = true).
    { rewrite IH. split.
      - intros (Hk & w & Hw & Hp). split; [lia|]. exists w. split; [|done].
        replace (i - k)%nat with (S (i - S k)) by lia. done.
      - intros (Hk & w & Hw & Hp). split; [lia|]. exists w. split; [|done].
        replace (i - k)%nat with (S (i - S k)) in Hw by lia. done. }
    destruct (p v) eqn:Hpv.
    + rewrite elem_of_cons, Htail. split.
      * intros [->|(Hk & w & Hw & Hp)].
        -- split; [lia|]. exists v. by rewrite Nat.sub_diag.
        -- split; [lia|]. by exists w.
      * intros (Hk & w & Hw & Hp).
        destruct (decide (i = k)) as [->|Hne]; [by left|].
        right. split; [lia|]. by exists w.
    + rewrite Htail. split.
      * intros (Hk & w & Hw & Hp). split; [lia|]. by exists w.
      * intros (Hk & w & Hw & Hp). split; [|by exists w].
        destruct (decide (i = k)) as [->|Hne]; [|lia].
        rewrite Nat.sub_diag in Hw. simpl in Hw. congruence.
Qed.

Lemma elem_of_where p l i :
  i ∈ where_ p l ↔ ∃ v, l !! i = Some v ∧ p v = true.
Proof.
  unfold where_. rewrite elem_of_where_from, Nat.sub_0_r. split.
  - by intros [_ H].
  - intros H. split; [lia|done].
Qed.

Lemma elem_of_where_lt p l i : i ∈ where_ p l → (i < length l)%nat.
Proof. intros (v & Hv & _)%elem_of_where. by eapply lookup_lt_Some. Qed.

(** ** The forcing term *)

Section ExternalForce.
Variables (x y : list Qc) (t B : Qc).

(** Every cell of the returned array, in terms of the three tests. *)
Lemma external_force_cells :
  ∃ f, Wave.external_force x y t B (length x) (length y) = Ok f ∧
       has_shape (length x) (length y) f ∧
       ∀ i j xi yj, x !! i = Some xi → y !! j = Some yj →
         cell f i j = Some (if Wave.in_time t && Wave.in_x xi && Wave.in_y yj then B else 0).
Proof.
  unfold Wave.external_force.
  set (Nx := length x). set (Ny := length y).
  destruct (Wave.in_time t); simpl.
  2:{ exists (zeros2 Nx Ny). split; [done|]. split; [apply zeros2_shape|].
      intros i j xi yj Hx%lookup_lt_Some Hy%lookup_lt_Some. by apply cell_zeros2. }
  set (u0 := zeros2 Nx Ny).
  set (ind_x := where_ Wave.in_x x). set (ind_y := where_ Wave.in_y y).
  pose (Q := λ (seen : list nat) (u : list (list Qc)),
          has_shape Nx Ny u ∧
          ∀ i j, cell u i j
                 = if decide (i ∈ seen ∧ j ∈ ind_y) then Some B else cell u0 i j).
  destruct (for_each_inv Q
              (λ ix u, for_each ind_y (λ iy u, setitem2 u ix iy B) u) ind_x u0)
    as (f & Hf & [Hshape Hcells]).
  - split; [apply zeros2_shape|]. intros i j.
    rewrite decide_False; [done|]. by intros [?%elem_of_nil _].
  - intros seen ix u [Hu Hcell] Hix%elem_of_where_lt.
    pose (P := λ (seen' : list nat) (u' : list (list Qc)),
            has_shape Nx Ny u' ∧
            ∀ i j, cell u' i j
                   = if decide (i = ix ∧ j ∈ seen') then Some B else cell u i j).
    destruct (for_each_inv P (λ iy u, setitem2 u ix iy B) ind_y u)
      as (u' & Hu' & [Hshape' Hcell']).
    + split; [done|]. intros i j.
      rewrite decide_False; [done|]. by intros [_ ?%elem_of_nil].
    + intros seen' iy u1 [Hu1 Hcell1] Hiy%elem_of_where_lt.
      destruct (setitem2_Ok Nx Ny u1 ix iy B Hu1 Hix Hiy) as (u2 & -> & Hu2 & Hcell2).
      exists u2. split; [done|]. split; [done|].
      intros i j. rewrite Hcell2, Hcell1.
      repeat case_decide; try done; exfalso;
        rewrite ?elem_of_app, ?list_elem_of_singleton in *; tauto.
    + exists u'. split; [done|]. split; [done|].
      intros i j. rewrite Hcell', Hcell.
      repeat case_decide; try done; exfalso;
        rewrite ?elem_of_app, ?list_elem_of_singleton in *;
        intuition (subst; tauto).
  - exists f. split; [done|]. split; [done|].
    intros i j xi yj Hx Hy. rewrite Hcells.
    unfold u0. rewrite cell_zeros2 by (by eapply lookup_lt_Some).
    unfold ind_x, ind_y. case_decide as Hin.
    + destruct Hin as [(xi' & Hx' & Hpx)%elem_of_where (yj' & Hy' & Hpy)%elem_of_where].
      simplify_eq. by rewrite Hpx, Hpy.
    + destruct (Wave.in_x xi) eqn:Hpx; [|done].
      destruct (Wave.in_y yj) eqn:Hpy; [|done].
      exfalso. apply Hin. rewrite !elem_of_where. split; eauto.
Qed.

End ExternalForce.

Lemma in_window_spec (xi yj t : Qc) :
  Wave.in_time t && Wave.in_x xi && Wave.in_y yj = true ↔ Wave.in_window xi yj t.
Proof.
  unfold Wave.in_time, Wave.in_x, Wave.in_y, Wave.in_window.
  rewrite !andb_true_iff, !bool_decide_eq_true. tauto.
Qed.

Lemma external_force_outside_time (x y : list Qc) (t B : Qc) (Nx Ny : nat) :
  Wave.in_time t = false → Wave.external_force x y t B Nx Ny = Ok (zeros2 Nx Ny).
Proof. intros Ht. unfold Wave.external_force. by rewrite Ht. Qed.

(** C2 - the indicator-window source: on a grid [x] of length [Nx] and [y] of
    length [Ny], [external_force] returns an [Nx]-by-[Ny] array that holds
    exactly [B] at [(i, j)] when [2.5 <= x[i] <= 3.5], [1.5 <= y[j] <= 4.5] and
    [1 < t < 4], and exactly [0] at every other cell and time.  In particular
    [t = 1] and [t = 4] give the all-zero array, and [x[i] = 2.5] or
    [x[i] = 3.5] gives [B] when the conditions on [y[j]] and [t] hold. *)
Theorem external_force_window (x y : list Qc) (t B : Qc) (Nx Ny : nat) :
  length x = Nx → length y = Ny →
  ∃ f, Wave.external_force x y t B Nx Ny = Ok f ∧
       has_shape Nx Ny f ∧
       (∀ i j xi yj, x !! i = Some xi → y !! j = Some yj →
          (Wave.in_window xi yj t → cell f i j = Some B) ∧
          (¬ Wave.in_window xi yj t → cell f i j = Some 0)) ∧
       (t = 1 ∨ t = lit 4 1 → f = zeros2 Nx Ny) ∧
       (∀ i j xi yj, x !! i = Some xi → y !! j = Some yj →
          xi = lit 5 2 ∨ xi = lit 7 2 →
          lit 3 2 ≤ yj ∧ yj ≤ lit 9 2 → 1 < t ∧ t < lit 4 1 →
          cell f i j = Some B).
Proof.
  intros <- <-.
  destruct (external_force_cells x y t B) as (f & Hf & Hshape & Hcells).
  assert (Hmain : ∀ i j xi yj, x !! i = Some xi → y !! j = Some yj →
            (Wave.in_window xi yj t → cell f i j = Some B) ∧
            (¬ Wave.in_window xi yj t → cell f i j = Some 0)).
  { intros i j xi yj Hx Hy. rewrite (Hcells i j xi yj Hx Hy).
    rewrite <- in_window_spec.
    destruct (Wave.in_time t && Wave.in_x xi && Wave.in_y yj); split; intros H; done. }
  exists f. split; [done|]. split; [done|]. split; [done|]. split.
  - intros Ht.
    assert (Hout : Wave.in_time t = false) by (by destruct Ht as [-> | ->]).
    rewrite (external_force_outside_time _ _ _ _ _ _ Hout) in Hf. congruence.
  - intros i j xi yj Hx Hy Hxi Hyj Ht.
    apply (Hmain i j xi yj Hx Hy).
    split; [|done]. by destruct Hxi as [-> | ->].
Qed.

Lemma external_force_window_witness :
  let x := [Q2Qc 0; lit 5 2; lit 5 1; lit 15 2; lit 10 1] in
  length x = 5%nat ∧
  ∃ f, Wave.external_force x x (lit 2 1) (lit 7 1) 5 5 = Ok f ∧
       cell f 1 1 = Some (lit 7 1) ∧ cell f 2 1 = Some 0.
Proof.
  intros x. split; [reflexivity|].
  destruct (external_force_window x x (lit 2 1) (lit 7 1) 5 5 eq_refl eq_refl)
    as (f & Hf & _ & Hcells & _).
  exists f. split; [exact Hf|]. split.
  - apply (Hcells 1 1 (lit 5 2) (lit 5 2))%nat; [reflexivity..|]. by vm_compute.
  - apply (Hcells 2 1 (lit 5 1) (lit 5 2))%nat; [reflexivity..|].
    intros [[_ H] _]. by vm_compute in H.
Defined.

(** ** Elementwise operations, slices and slice assignment on 2-D arrays *)

Lemma cell_map2 f (a b : list (list Qc)) i j :
  cell (map2 f a b) i j = va ← cell a i j; vb ← cell b i j; Some (f va vb).
Proof.
  unfold cell, map2. rewrite lookup_zip_with.
  destruct (a !! i) as [ra|]; simpl; [|done].
  destruct (b !! i) as [rb|]; simpl.
  - by rewrite lookup_zip_with.
  - by destruct (ra !! j).
Qed.

Lemma cell_smap f (a : list (list Qc)) i j : cell (smap f a) i j = f <$> cell a i j.
Proof.
  unfold cell, smap, map1. rewrite list_lookup_fmap.
  destruct (a !! i) as [ra|]; simpl; [|done]. by rewrite list_lookup_fmap.
Qed.

Lemma map2_shape f Nx Ny (a b : list (list Qc)) :
  has_shape Nx Ny a → has_shape Nx Ny b → has_shape Nx Ny (map2 f a b).
Proof.
  intros [Ha Hra] [Hb Hrb]. unfold map2. split.
  - rewrite length_zip_with. lia.
  - rewrite Forall_lookup in *. intros i row (ra & rb & -> & Hia & Hib)%lookup_zip_with_Some.
    rewrite length_zip_with, (Hra _ _ Hia), (Hrb _ _ Hib). lia.
Qed.

Lemma smap_shape f Nx Ny (a : list (list Qc)) :
  has_shape Nx Ny a → has_shape Nx Ny (smap f a).
Proof.
  intros [Ha Hra]. unfold smap, map1. split.
  - by rewrite length_fmap.
  - rewrite Forall_fmap. eapply Forall_impl; [done|].
    intros row Hrow. simpl. by rewrite length_fmap.
Qed.

Section Slices.
Context {A : Type}.
Implicit Types (l : list A).

Lemma length_sl_1_m1 l : length (sl_1_m1 l) = (length l - 2)%nat.
Proof. unfold sl_1_m1. rewrite length_take, length_drop. lia. Qed.

Lemma length_sl_2_ l : length (sl_2_ l) = (length l - 2)%nat.
Proof. unfold sl_2_. by rewrite length_drop. Qed.

Lemma length_sl__m2 l : length (sl__m2 l) = (length l - 2)%nat.
Proof. unfold sl__m2. rewrite length_take. lia. Qed.

Lemma lookup_sl_1_m1 l k :
  (k < length l - 2)%nat → sl_1_m1 l !! k = l !! S k.
Proof. intros Hk. unfold sl_1_m1. rewrite lookup_take_lt by done. by rewrite lookup_drop. Qed.

Lemma lookup_sl_2_ l k : sl_2_ l !! k = l !! S (S k).
Proof. unfold sl_2_. by rewrite lookup_drop. Qed.

Lemma lookup_sl__m2 l k : (k < length l - 2)%nat → sl__m2 l !! k = l !! k.
Proof. intros Hk. unfold sl__m2. by rewrite lookup_take_lt. Qed.

Lemma Forall_sl_1_m1 (P : A → Prop) l : Forall P l → Forall P (sl_1_m1 l).
Proof. intros H. by apply Forall_take, Forall_drop. Qed.

Lemma Forall_sl_2_ (P : A → Prop) l : Forall P l → Forall P (sl_2_ l).
Proof. intros H. by apply Forall_drop. Qed.

Lemma Forall_sl__m2 (P : A → Prop) l : Forall P l → Forall P (sl__m2 l).
Proof. intros H. by apply Forall_take. Qed.

(** [dst[1:-1] = src] keeps the length and the two end entries, and puts
    [src] in between. *)
Lemma length_set_1_m1 (dst src : list A) :
  length src = (length dst - 2)%nat → length (set_1_m1 dst src) = length dst.
Proof.
  intros Hs. unfold set_1_m1. case_bool_decide; [|done].
  rewrite !length_app, length_take, length_drop. lia.
Qed.

Lemma lookup_set_1_m1_edge (dst src : list A) i :
  length src = (length dst - 2)%nat →
  i = 0%nat ∨ i = (length dst - 1)%nat →
  set_1_m1 dst src !! i = dst !! i.
Proof.
  intros Hs Hi. unfold set_1_m1. case_bool_decide as Hlen; [|done].
  destruct (decide (i = 0%nat)) as [->|Hne].
  - rewrite lookup_app_l by (rewrite length_take; lia).
    by rewrite lookup_take_lt by lia.
  - assert (i = (length dst - 1)%nat) as -> by lia.
    rewrite lookup_app_r by (rewrite length_take; lia).
    rewrite lookup_app_r by (rewrite length_take; lia).
    rewrite lookup_drop, length_take. f_equal. lia.
Qed.

Lemma lookup_set_1_m1_mid (dst src : list A) i :
  length src = (length dst - 2)%nat →
  (1 ≤ i)%nat → (i < length dst - 1)%nat →
  set_1_m1 dst src !! i = src !! (i - 1)%nat.
Proof.
  intros Hs H1 H2. unfold set_1_m1. rewrite bool_decide_eq_true_2 by lia.
  rewrite lookup_app_r by (rewrite length_take; lia).
  rewrite lookup_app_l by (rewrite length_take; lia).
  rewrite length_take. f_equal. lia.
Qed.

End Slices.

Lemma sl2_shape {A} (rs : list (list A) → list (list A)) (cs : list A → list A)
    Nx Ny (m : list (list A)) :
  (∀ l, length (rs l) = (length l - 2)%nat) →
  (∀ (P : list A → Prop) l, Forall P l → Forall P (rs l)) →
  (∀ l, length (cs l) = (length l - 2)%nat) →
  has_shape Nx Ny m → has_shape (Nx - 2) (Ny - 2) (sl2 rs cs m).
Proof.
  intros Hrs HP Hcs [Hn Hrows]. unfold sl2. split.
  - by rewrite length_fmap, Hrs, Hn.
  - rewrite Forall_fmap. apply HP. eapply Forall_impl; [done|].
    intros row Hrow. simpl. by rewrite Hcs, Hrow.
Qed.

Lemma interior_term_shape c dx dy Nx Ny (y1 : list (list Qc)) :
  has_shape Nx Ny y1 → has_shape (Nx - 2) (Ny - 2) (Wave.interior_term c dx dy y1).
Proof.
  intros Hy1. unfold Wave.interior_term.
  assert (S11 : has_shape (Nx - 2) (Ny - 2) (sl2 sl_1_m1 sl_1_m1 y1))
    by (apply sl2_shape; auto using @length_sl_1_m1, @Forall_sl_1_m1).
  assert (S21 : has_shape (Nx - 2) (Ny - 2) (sl2 sl_2_ sl_1_m1 y1))
    by (apply sl2_shape; auto using @length_sl_2_, @length_sl_1_m1, @Forall_sl_2_).
  assert (Sm1 : has_shape (Nx - 2) (Ny - 2) (sl2 sl__m2 sl_1_m1 y1))
    by (apply sl2_shape; auto using @length_sl__m2, @length_sl_1_m1, @Forall_sl__m2).
  assert (S12 : has_shape (Nx - 2) (Ny - 2) (sl2 sl_1_m1 sl_2_ y1))
    by (apply sl2_shape; auto using @length_sl_2_, @length_sl_1_m1, @Forall_sl_1_m1).
  assert (S1m : has_shape (Nx - 2) (Ny - 2) (sl2 sl_1_m1 sl__m2 y1))
    by (apply sl2_shape; auto using @length_sl__m2, @length_sl_1_m1, @Forall_sl_1_m1).
  repeat (apply smap_shape || apply map2_shape); done.
Qed.

Section SetInterior.
Context {A : Type}.
Variables (Nx Ny : nat) (dst src : list (list A)).
Hypothesis Hdst : has_shape Nx Ny dst.
Hypothesis Hsrc : has_shape (Nx - 2) (Ny - 2) src.

Lemma length_interior_rows :
  length (zip_with set_1_m1 (sl_1_m1 dst) src) = (length dst - 2)%nat.
Proof.
  destruct Hdst as [Hn _], Hsrc as [Hm _].
  rewrite length_zip_with, length_sl_1_m1. lia.
Qed.

Lemma set_interior_shape : has_shape Nx Ny (set_interior dst src).
Proof.
  destruct Hdst as [Hn Hrows], Hsrc as [Hm Hsrows].
  unfold set_interior. split.
  - rewrite length_set_1_m1; [done|]. apply length_interior_rows.
  - unfold set_1_m1. case_bool_decide; [|done].
    rewrite !Forall_app. split; [by apply Forall_take|].
    split; [|by apply Forall_drop].
    rewrite Forall_lookup in *.
    intros k row (rd & rs & -> & Hd & Hs)%lookup_zip_with_Some.
    assert (length rd = Ny).
    { apply lookup_take_Some in Hd as [Hd _]. rewrite lookup_drop in Hd. eauto. }
    change (length (set_1_m1 rd rs) = Ny).
    rewrite length_set_1_m1; [done|]. rewrite (Hsrows _ _ Hs). lia.
Qed.

(** Cells of the first and last row and column are left as they were. *)
Lemma cell_set_interior_boundary i j :
  Wave.boundary Nx Ny i j → cell (set_interior dst src) i j = cell dst i j.
Proof.
  intros (Hi & Hj & Hedge).
  destruct Hdst as [Hn Hrows], Hsrc as [Hm Hsrows].
  unfold set_interior, cell.
  destruct (decide (i = 0%nat ∨ i = (length dst - 1)%nat)) as [Hrow|Hrow].
  { by rewrite lookup_set_1_m1_edge by (done || apply length_interior_rows). }
  rewrite lookup_set_1_m1_mid by (apply length_interior_rows || lia).
  rewrite lookup_zip_with.
  rewrite lookup_sl_1_m1 by lia.
  replace (S (i - 1)) with i by lia.
  destruct (lookup_lt_is_Some_2 dst i) as [rd Hrd]; [lia|].
  destruct (lookup_lt_is_Some_2 src (i - 1)) as [rs Hrs]; [lia|].
  rewrite Hrd, Hrs. simpl.
  rewrite Forall_lookup in Hrows, Hsrows.
  apply lookup_set_1_m1_edge.
  - rewrite (Hrows _ _ Hrd), (Hsrows _ _ Hrs). done.
  - rewrite (Hrows _ _ Hrd). lia.
Qed.

(** Interior cells hold the assigned value. *)
Lemma cell_set_interior_interior i j :
  (1 ≤ i)%nat → (i < Nx - 1)%nat → (1 ≤ j)%nat → (j < Ny - 1)%nat →
  cell (set_interior dst src) i j = cell src (i - 1) (j - 1).
Proof.
  intros Hi1 Hi2 Hj1 Hj2.
  destruct Hdst as [Hn Hrows], Hsrc as [Hm Hsrows].
  unfold set_interior, cell.
  rewrite lookup_set_1_m1_mid by (apply length_interior_rows || lia).
  rewrite lookup_zip_with.
  rewrite lookup_sl_1_m1 by lia.
  replace (S (i - 1)) with i by lia.
  destruct (lookup_lt_is_Some_2 dst i) as [rd Hrd]; [lia|].
  destruct (lookup_lt_is_Some_2 src (i - 1)) as [rs Hrs]; [lia|].
  rewrite Hrd, Hrs. simpl.
  rewrite Forall_lookup in Hrows, Hsrows.
  apply lookup_set_1_m1_mid.
  - rewrite (Hrows _ _ Hrd), (Hsrows _ _ Hrs). done.
  - done.
  - rewrite (Hrows _ _ Hrd). lia.
Qed.

End SetInterior.

(** ** The wave right-hand side, cell by cell *)

(** Closing a concrete equation or inequation by evaluation. *)
Ltac by_eval :=
  match goal with
  | |- ?P => apply (bool_decide_eq_true_1 P); vm_compute; reflexivity
  end.

Lemma pos1_lt Nx Ny i j :
  (i < Nx)%nat → (j < Ny)%nat → (Wave.pos1 Nx Ny i j < Nx * Ny)%nat.
Proof. unfold Wave.pos1. nia. Qed.

Section WaveOdefun.
Variables (u : list Qc) (t B a c : Qc) (x y : list Qc) (dx dy : Qc) (Nx Ny : nat).
Hypothesis Hu : length u = (2 * Nx * Ny)%nat.
Hypothesis Hx : length x = Nx.
Hypothesis Hy : length y = Ny.

(** The buffer [dy2dt] after the slice assignment, before the other terms
    are added: zero on the boundary. *)
Lemma cell_laplacian_boundary i j :
  Wave.boundary Nx Ny i j →
  cell (set_interior (zeros2 Nx Ny)
          (Wave.interior_term c dx dy (rows Nx Ny (take (Nx * Ny) u)))) i j = Some 0.
Proof using Hu.
  clear Hx Hy.
  intros Hb. rewrite (cell_set_interior_boundary Nx Ny); [| | |done].
  - destruct Hb as (Hi & Hj & _). by apply cell_zeros2.
  - apply zeros2_shape.
  - apply interior_term_shape, rows_shape. rewrite length_take. lia.
Qed.

(** The returned vector: the first half is [y2]; a cell of the second half
    is the buffer cell minus [a * y2] plus the force. *)
Lemma wave_odefun_cells :
  ∃ r f_ext,
    Wave.odefun u t B a c x y dx dy Nx Ny = Ok r ∧
    Wave.external_force x y t B Nx Ny = Ok f_ext ∧
    length r = (2 * Nx * Ny)%nat ∧
    ∀ i j, (i < Nx)%nat → (j < Ny)%nat →
      r !! Wave.pos1 Nx Ny i j = u !! Wave.pos2 Nx Ny i j ∧
      ∃ l v f,
        cell (set_interior (zeros2 Nx Ny)
                (Wave.interior_term c dx dy (rows Nx Ny (take (Nx * Ny) u)))) i j = Some l ∧
        u !! Wave.pos2 Nx Ny i j = Some v ∧
        cell f_ext i j = Some f ∧
        r !! Wave.pos2 Nx Ny i j = Some (l - a * v + f).
Proof using Hu Hx Hy.
  destruct (external_force_cells x y t B) as (f_ext & Hf & Hfs & _).
  rewrite Hx, Hy in Hf, Hfs.
  set (y1 := rows Nx Ny (take (Nx * Ny) u)).
  set (y2 := rows Nx Ny (drop (Nx * Ny) u)).
  set (lap := set_interior (zeros2 Nx Ny) (Wave.interior_term c dx dy y1)).
  set (d2 := map2 Qcplus (map2 Qcminus lap (smap (λ v, a * v) y2)) f_ext).
  assert (Ht : length (take (Nx * Ny) u) = (Nx * Ny)%nat) by (rewrite length_take; lia).
  assert (Hd : length (drop (Nx * Ny) u) = (Nx * Ny)%nat) by (rewrite length_drop; lia).
  assert (S1 : has_shape Nx Ny y1) by (by apply rows_shape).
  assert (S2 : has_shape Nx Ny y2) by (by apply rows_shape).
  assert (Sl : has_shape Nx Ny lap).
  { apply set_interior_shape; [apply zeros2_shape|by apply interior_term_shape]. }
  assert (Sd : has_shape Nx Ny d2).
  { repeat (apply map2_shape || apply smap_shape); done. }
  assert (Hr : Wave.odefun u t B a c x y dx dy Nx Ny = Ok (concat y2 ++ concat d2)).
  { unfold Wave.odefun. rewrite unpack_Ok by done. simpl. rewrite Hf. simpl.
    by apply pack_Ok. }
  assert (L2 := length_concat_shape _ _ _ S2).
  assert (Ld := length_concat_shape _ _ _ Sd).
  exists (concat y2 ++ concat d2), f_ext.
  split; [done|]. split; [done|]. split; [rewrite length_app; lia|].
  intros i j Hi Hj.
  assert (Hp := pos1_lt Nx Ny i j Hi Hj).
  assert (Hy2 : cell y2 i j = u !! Wave.pos2 Nx Ny i j).
  { unfold y2. rewrite cell_rows by done. by rewrite lookup_drop. }
  split.
  - rewrite lookup_app_l by lia. unfold Wave.pos1.
    by rewrite (lookup_concat_shape Nx Ny).
  - destruct (cell_is_Some Nx Ny lap i j Sl Hi Hj) as [l Hl].
    destruct (cell_is_Some Nx Ny y2 i j S2 Hi Hj) as [v Hv].
    destruct (cell_is_Some Nx Ny f_ext i j Hfs Hi Hj) as [f Hfc].
    exists l, v, f. split; [done|]. split; [by rewrite <- Hy2|]. split; [done|].
    unfold Wave.pos2. rewrite lookup_app_r by lia.
    rewrite L2, Nat.add_comm, Nat.add_sub.
    rewrite (lookup_concat_shape Nx Ny) by done.
    unfold d2. rewrite !cell_map2, cell_smap, Hl, Hv, Hfc. done.
Qed.

End WaveOdefun.

(** C1 (as amended) - boundary cells of the [dy2/dt] half: for every time and
    every packed state of length [2*Nx*Ny] (on a grid of [Nx] by [Ny]
    coordinates), [odefun] returns a vector whose [dy2/dt] entry at a boundary
    cell [(i, j)] is [0 - a * y2[i,j] + f_ext[i,j]]: the Laplacian term is not
    applied there, the damping term and the force are.  It is [0] whenever
    the velocity and the force vanish at that cell. *)
Theorem odefun_boundary_cells (u : list Qc) (t B a c : Qc) (x y : list Qc)
    (dx dy : Qc) (Nx Ny : nat) :
  length u = (2 * Nx * Ny)%nat → length x = Nx → length y = Ny →
  ∃ r f_ext,
    Wave.odefun u t B a c x y dx dy Nx Ny = Ok r ∧
    Wave.external_force x y t B Nx Ny = Ok f_ext ∧
    ∀ i j, Wave.boundary Nx Ny i j →
      ∃ v f, u !! Wave.pos2 Nx Ny i j = Some v ∧ cell f_ext i j = Some f ∧
             r !! Wave.pos2 Nx Ny i j = Some (0 - a * v + f) ∧
             (v = 0 → f = 0 → r !! Wave.pos2 Nx Ny i j = Some 0).
Proof.
  intros Hu Hx Hy.
  destruct (wave_odefun_cells u t B a c x y dx dy Nx Ny Hu Hx Hy)
    as (r & f_ext & Hr & Hf & _ & Hcells).
  exists r, f_ext. split; [done|]. split; [done|].
  intros i j Hb. pose proof Hb as (Hi & Hj & _).
  destruct (Hcells i j Hi Hj) as (_ & l & v & f & Hl & Hv & Hfc & Hrc).
  rewrite cell_laplacian_boundary in Hl by done.
  injection Hl as <-.
  exists v, f. split; [done|]. split; [done|]. split; [done|].
  intros -> ->. rewrite Hrc. f_equal. ring.
Qed.

(** C1 as stated fails: on a 3-by-3 grid with damping [a = 1], a state whose
    velocity is [1] at the corner cell [(0, 0)] gives [dy2/dt = -1] there. *)
Lemma odefun_boundary_cell_nonzero :
  let u := zeros 9 ++ [1] ++ zeros 8 in
  let g := [Q2Qc 0; 1; lit 2 1] in
  length u = (2 * 3 * 3)%nat ∧ Wave.boundary 3 3 0 0 ∧
  ∃ r, Wave.odefun u 0 1 1 1 g g 1 1 3 3 = Ok r ∧
       r !! Wave.pos2 3 3 0 0 = Some (- 1) ∧ r !! Wave.pos2 3 3 0 0 ≠ Some 0.
Proof.
  intros u g. split; [reflexivity|]. split; [unfold Wave.boundary; lia|].
  exists (1 :: zeros 8 ++ [- 1] ++ zeros 8).
  split; [by_eval|]. split; [reflexivity|]. by_eval.
Qed.

Lemma odefun_boundary_cells_witness :
  let u := zeros 9 ++ [1] ++ zeros 8 in
  let g := [Q2Qc 0; 1; lit 2 1] in
  length u = (2 * 3 * 3)%nat ∧ length g = 3%nat ∧
  ∃ r, Wave.odefun u 0 1 1 1 g g 1 1 3 3 = Ok r ∧
       r !! Wave.pos2 3 3 0 0 = Some (0 - 1 * 1 + 0) ∧
       r !! Wave.pos2 3 3 2 1 = Some 0.
Proof.
  intros u g. split; [reflexivity|]. split; [reflexivity|].
  destruct (odefun_boundary_cells u 0 1 1 1 g g 1 1 3 3 eq_refl eq_refl eq_refl)
    as (r & f_ext & Hr & Hf & Hcells).
  exists r. split; [exact Hr|].
  assert (Hfe : f_ext = zeros2 3 3).
  { assert (He : Wave.external_force g g 0 1 3 3 = Ok (zeros2 3 3)) by reflexivity.
    rewrite He in Hf. by injection Hf. }
  subst f_ext. split.
  - destruct (Hcells 0 0)%nat as (v & f & Hv & Hfc & Hrc & _);
      [unfold Wave.boundary; lia|].
    injection Hv as <-. injection Hfc as <-. exact Hrc.
  - destruct (Hcells 2 1)%nat as (v & f & Hv & Hfc & _ & Hz);
      [unfold Wave.boundary; lia|].
    injection Hv as <-. injection Hfc as <-. by apply Hz.
Defined.

(** ** Boundary-zero states *)

Lemma boundary_zero_zeros Nx Ny : Wave.boundary_zero Nx Ny (zeros (2 * Nx * Ny)).
Proof.
  intros i j (Hi & Hj & _).
  assert (Hp := pos1_lt Nx Ny i j Hi Hj).
  split; apply lookup_zeros; unfold Wave.pos2; fold (Wave.pos1 Nx Ny i j); lia.
Qed.

Lemma axpy_boundary_zero Nx Ny h (u d : list Qc) :
  Wave.boundary_zero Nx Ny u → Wave.boundary_zero Nx Ny d →
  Wave.boundary_zero Nx Ny (axpy h u d).
Proof.
  intros Hu Hd i j Hb. destruct (Hu i j Hb) as [Hu1 Hu2], (Hd i j Hb) as [Hd1 Hd2].
  unfold axpy. rewrite !lookup_zip_with, Hu1, Hu2, Hd1, Hd2. simpl.
  split; f_equal; ring.
Qed.

(** A grid whose first and last coordinates along each axis lie outside the
    window keeps the forcing off the boundary. *)
Lemma forcing_off_boundary_edges (x y : list Qc) :
  Wave.in_x (x !!! 0%nat) = false → Wave.in_x (x !!! (length x - 1)%nat) = false →
  Wave.in_y (y !!! 0%nat) = false → Wave.in_y (y !!! (length y - 1)%nat) = false →
  Wave.forcing_off_boundary x y (length x) (length y).
Proof.
  intros Hx0 Hx1 Hy0 Hy1 i j xi yj (Hi & Hj & Hedge) Hxi Hyj.
  apply list_lookup_total_correct in Hxi as Hxi', Hyj as Hyj'.
  apply andb_false_iff.
  destruct Hedge as [-> | [-> | [-> | ->]]]; [left|left|right|right]; congruence.
Qed.

(** C5 - boundary-zero invariant of the wave system: when no boundary grid
    point lies in the forcing window, every packed state whose displacement
    and velocity are 0 on all boundary cells is mapped by [odefun] to a
    derivative vector that is 0 on all boundary cells of both components;
    hence an update [u + h * odefun(u)] of such a state, and in particular of
    the all-zero initial state, is again 0 on the boundary. *)
Theorem odefun_boundary_zero (u : list Qc) (t B a c : Qc) (x y : list Qc)
    (dx dy : Qc) (Nx Ny : nat) :
  length u = (2 * Nx * Ny)%nat → length x = Nx → length y = Ny →
  Wave.forcing_off_boundary x y Nx Ny →
  Wave.boundary_zero Nx Ny u →
  ∃ r, Wave.odefun u t B a c x y dx dy Nx Ny = Ok r ∧
       Wave.boundary_zero Nx Ny r ∧
       ∀ h, Wave.boundary_zero Nx Ny (axpy h u r).
Proof.
  intros Hu Hx Hy Hoff Hbz.
  destruct (wave_odefun_cells u t B a c x y dx dy Nx Ny Hu Hx Hy)
    as (r & f_ext & Hr & Hf & _ & Hcells).
  destruct (external_force_cells x y t B) as (f' & Hf' & _ & Hwin).
  rewrite Hx, Hy in Hf'. assert (f' = f_ext) as -> by congruence.
  assert (Hrz : Wave.boundary_zero Nx Ny r).
  { intros i j Hb. pose proof Hb as (Hi & Hj & _).
    destruct (Hbz i j Hb) as [_ Hv0].
    destruct (Hcells i j Hi Hj) as (H1 & l & v & f & Hl & Hv & Hfc & Hrc).
    split; [by rewrite H1|].
    rewrite cell_laplacian_boundary in Hl by done.
    destruct (lookup_lt_is_Some_2 x i) as [xi Hxi]; [lia|].
    destruct (lookup_lt_is_Some_2 y j) as [yj Hyj]; [lia|].
    rewrite (Hwin i j xi yj Hxi Hyj) in Hfc.
    rewrite <- andb_assoc, (Hoff i j xi yj Hb Hxi Hyj), andb_false_r in Hfc.
    simplify_eq. rewrite Hrc. f_equal. ring. }
  exists r. split; [done|]. split; [done|].
  intros h. by apply axpy_boundary_zero.
Qed.

Lemma odefun_boundary_zero_witness :
  let x := (λ k : nat, lit (Z.of_nat k) 4) <$> seq 0 41 in
  let u := zeros (2 * 41 * 41) in
  Wave.grid_axis Wave.Notebook.lx Wave.Notebook.dx = Ok (41%Z, x) ∧
  length u = (2 * 41 * 41)%nat ∧ length x = 41%nat ∧
  Wave.forcing_off_boundary x x 41 41 ∧
  Wave.boundary_zero 41 41 u ∧
  ∃ r, Wave.odefun u (lit 2 1) Wave.Notebook.B Wave.Notebook.a Wave.Notebook.c
         x x Wave.Notebook.dx Wave.Notebook.dy 41 41 = Ok r ∧
       Wave.boundary_zero 41 41 r.
Proof.
  intros x u.
  assert (Hoff : Wave.forcing_off_boundary x x 41 41)
    by (apply (forcing_off_boundary_edges x x); reflexivity).
  assert (Hbz : Wave.boundary_zero 41 41 u) by apply boundary_zero_zeros.
  split; [by_eval|].
  split; [reflexivity|]. split; [reflexivity|]. split; [exact Hoff|]. split; [exact Hbz|].
  destruct (odefun_boundary_zero u (lit 2 1) Wave.Notebook.B Wave.Notebook.a
              Wave.Notebook.c x x Wave.Notebook.dx Wave.Notebook.dy 41 41
              eq_refl eq_refl eq_refl Hoff Hbz) as (r & Hr & Hrz & _).
  exists r. split; [exact Hr | exact Hrz].
Defined.

(** ** The heat right-hand side *)

Lemma lit_m1 : lit (-1) 1 = - 1.
Proof. by_eval. Qed.

Lemma length_diff (l : list Qc) : length (diff l) = (length l - 1)%nat.
Proof. unfold diff. rewrite length_zip_with, length_drop. lia. Qed.

Lemma lookup_diff (l : list Qc) i lo hi :
  l !! i = Some lo → l !! S i = Some hi → diff l !! i = Some (hi - lo).
Proof.
  intros Hlo Hhi. unfold diff. rewrite lookup_zip_with, lookup_drop, Hlo. simpl.
  by rewrite Hhi.
Qed.

Lemma lookup_diff_total (l : list Qc) i :
  (S i < length l)%nat → diff l !! i = Some (l !!! S i - l !!! i).
Proof.
  intros Hi.
  destruct (lookup_lt_is_Some_2 l i) as [lo Hlo]; [lia|].
  destruct (lookup_lt_is_Some_2 l (S i)) as [hi Hhi]; [lia|].
  rewrite (lookup_diff l i lo hi) by done.
  by rewrite (list_lookup_total_correct _ _ _ Hlo), (list_lookup_total_correct _ _ _ Hhi).
Qed.

Lemma broadcast_to_same n (v : list Qc) : length v = n → broadcast_to n v = Ok v.
Proof. intros Hv. unfold broadcast_to. by rewrite bool_decide_eq_true_2. Qed.

Lemma broadcast2_same f (a b : list Qc) :
  length a = length b → broadcast2 f a b = Ok (zip_with f a b).
Proof. intros Hab. unfold broadcast2. by rewrite bool_decide_eq_true_2. Qed.

Lemma broadcast2_Raise f (a b : list Qc) :
  length a ≠ length b → length a ≠ 1%nat → length b ≠ 1%nat →
  broadcast2 f a b = Raise ValueError.
Proof.
  intros Hab Ha Hb. unfold broadcast2. rewrite bool_decide_eq_false_2 by done.
  destruct a as [|a0 [|a1 a]], b as [|b0 [|b1 b]]; simpl in *; done.
Qed.

Section HeatOdefun.
Variable p : Heat.params.
Hypothesis Hq : length (Heat.q p) = Heat.Nx p.

Lemma length_dq_left : length (Heat.dq_left p) = Heat.Nx p.
Proof using Hq.
  unfold Heat.dq_left, map1.
  rewrite length_app, length_take, length_zeros, length_fmap, length_diff. lia.
Qed.

Lemma length_dq_right : length (Heat.dq_right p) = Heat.Nx p.
Proof using Hq.
  unfold Heat.dq_right. rewrite length_app, length_drop, length_zeros, length_diff. lia.
Qed.

Lemma dq_Ok : Heat.dq p = Ok (zip_with Qcplus (Heat.dq_left p) (Heat.dq_right p)).
Proof using Hq.
  unfold Heat.dq, set_1_, set__m1, sl_1_, sl__m1.
  rewrite !broadcast_to_same
    by (unfold map1;
        rewrite ?length_fmap, ?length_diff, ?length_take, ?length_drop, ?length_zeros; lia).
  simpl. rewrite length_zeros.
  apply broadcast2_same. fold (Heat.dq_left p) (Heat.dq_right p).
  by rewrite length_dq_left, length_dq_right.
Qed.

Lemma lookup_dq_left i :
  (i < Heat.Nx p)%nat →
  Heat.dq_left p !! i
  = Some (if bool_decide (1 ≤ i)%nat
          then - (Heat.q p !!! i - Heat.q p !!! (i - 1)%nat) else 0).
Proof using Hq.
  intros Hi. unfold Heat.dq_left. destruct i as [|i].
  - rewrite lookup_app_l by (rewrite length_take, length_zeros; lia).
    rewrite lookup_take_lt by lia. by rewrite lookup_zeros by lia.
  - rewrite lookup_app_r by (rewrite length_take, length_zeros; lia).
    rewrite length_take, length_zeros.
    replace (S i - 1 `min` Heat.Nx p)%nat with i by lia.
    unfold map1. rewrite list_lookup_fmap, lookup_diff_total by lia. simpl.
    rewrite Nat.sub_0_r, lit_m1. f_equal; ring.
Qed.

Lemma lookup_dq_right i :
  (i < Heat.Nx p)%nat →
  Heat.dq_right p !! i
  = Some (if bool_decide (i < Heat.Nx p - 1)%nat
          then Heat.q p !!! (i + 1)%nat - Heat.q p !!! i else 0).
Proof using Hq.
  intros Hi. unfold Heat.dq_right. case_bool_decide as Hlast.
  - rewrite lookup_app_l by (rewrite length_diff; lia).
    rewrite lookup_diff_total by lia. by rewrite Nat.add_1_r.
  - rewrite lookup_app_r by (rewrite length_diff; lia).
    rewrite lookup_drop, length_diff. apply lookup_zeros. lia.
Qed.

Lemma lookup_dq i :
  (i < Heat.Nx p)%nat →
  zip_with Qcplus (Heat.dq_left p) (Heat.dq_right p) !! i
  = Some (Heat.dq_spec (Heat.q p) (Heat.Nx p) i).
Proof using Hq.
  intros Hi. by rewrite lookup_zip_with, lookup_dq_left, lookup_dq_right.
Qed.

Hypothesis Hx : length (Heat.x p) = S (Heat.Nx p).
Hypothesis Hc : Heat.c p ≠ 0.

(** The quotient [dq / np.diff(x)], which does not depend on the state. *)
Lemma length_flux_quotient :
  length (zip_with Qcdiv (zip_with Qcplus (Heat.dq_left p) (Heat.dq_right p)) (diff (Heat.x p)))
  = Heat.Nx p.
Proof using Hq Hx.
  rewrite !length_zip_with, length_dq_left, length_dq_right, length_diff. lia.
Qed.

Lemma odefun_Ok t (y : list Qc) :
  length y = Heat.Nx p →
  Heat.odefun t y p
  = Ok (map1 (λ v, - / Heat.c p * v)
          (zip_with Qcminus
             (zip_with Qcdiv (zip_with Qcplus (Heat.dq_left p) (Heat.dq_right p)) (diff (Heat.x p)))
             (map1 (λ v, v * Heat.a p) y))).
Proof using Hq Hx Hc.
  intros Hy. unfold Heat.odefun. rewrite dq_Ok. simpl.
  unfold pow_m1. rewrite bool_decide_eq_false_2 by done. simpl.
  rewrite broadcast2_same.
  2:{ rewrite length_zip_with, length_dq_left, length_dq_right, length_diff. lia. }
  simpl. rewrite broadcast2_same; [done|].
  unfold map1 at 1. by rewrite length_flux_quotient, length_fmap.
Qed.

Lemma odefun_Raise t (y : list Qc) :
  length y ≠ Heat.Nx p → length y ≠ 1%nat → Heat.Nx p ≠ 1%nat →
  Heat.odefun t y p = Raise ValueError.
Proof using Hq Hx Hc.
  intros Hy Hy1 Hn1. unfold Heat.odefun. rewrite dq_Ok. simpl.
  unfold pow_m1. rewrite bool_decide_eq_false_2 by done. simpl.
  rewrite broadcast2_same.
  2:{ rewrite length_zip_with, length_dq_left, length_dq_right, length_diff. lia. }
  simpl. rewrite broadcast2_Raise; [done|..].
  - unfold map1. by rewrite length_flux_quotient, length_fmap.
  - by rewrite length_flux_quotient.
  - unfold map1. by rewrite length_fmap.
Qed.

Lemma lookup_odefun t (y r : list Qc) i :
  length y = Heat.Nx p → Heat.odefun t y p = Ok r → (i < Heat.Nx p)%nat →
  r !! i = Some (- / Heat.c p
                 * (Heat.dq_spec (Heat.q p) (Heat.Nx p) i
                    / (Heat.x p !!! S i - Heat.x p !!! i)
                    - y !!! i * Heat.a p)).
Proof using Hq Hx Hc.
  intros Hy Hr Hi. rewrite odefun_Ok in Hr by done. injection Hr as <-.
  destruct (lookup_lt_is_Some_2 y i) as [yi Hyi]; [lia|].
  unfold map1. rewrite list_lookup_fmap, !lookup_zip_with.
  rewrite lookup_dq_left, lookup_dq_right by done. simpl.
  rewrite lookup_diff_total by lia. simpl.
  rewrite list_lookup_fmap, Hyi. simpl.
  by rewrite (list_lookup_total_correct _ _ _ Hyi).
Qed.

End HeatOdefun.

(** ** The heat claims *)

(** C3 - the heat right-hand side, entry by entry: for every time and every
    state of length [Nx] (with well-formed parameters), [odefun] returns a
    vector of length [Nx] whose entry [i] is
    [-(1/C) * (dq[i] / (x[i+1] - x[i]) - a * y[i])], where [dq[i]] is
    [-(q[i] - q[i-1])] for [i >= 1] plus [q[i+1] - q[i]] for [i < Nx - 1];
    so [dq[0]] has no left contribution and [dq[Nx-1]] no right one. *)
Theorem heat_odefun_formula (t : Qc) (y : list Qc) (p : Heat.params) :
  Heat.well_formed p → length y = Heat.Nx p →
  ∃ r d,
    Heat.odefun t y p = Ok r ∧ Heat.dq p = Ok d ∧ length r = Heat.Nx p ∧
    (∀ i, (i < Heat.Nx p)%nat →
       d !! i = Some (Heat.dq_spec (Heat.q p) (Heat.Nx p) i) ∧
       r !! i = Some (- (1 / Heat.c p)
                      * (Heat.dq_spec (Heat.q p) (Heat.Nx p) i
                         / (Heat.x p !!! (i + 1)%nat - Heat.x p !!! i)
                         - Heat.a p * y !!! i))) ∧
    ((2 ≤ Heat.Nx p)%nat →
       d !! 0%nat = Some (Heat.q p !!! 1%nat - Heat.q p !!! 0%nat) ∧
       d !! (Heat.Nx p - 1)%nat
       = Some (- (Heat.q p !!! (Heat.Nx p - 1)%nat - Heat.q p !!! (Heat.Nx p - 2)%nat))).
Proof.
  intros (Hq & Hx & Hc & _) Hy.
  eexists _, _. split; [by apply odefun_Ok|]. split; [by apply dq_Ok|].
  split.
  { unfold map1. rewrite length_fmap, length_zip_with, length_flux_quotient by done.
    rewrite length_fmap. lia. }
  split.
  - intros i Hi. split; [by apply lookup_dq|].
    rewrite (lookup_odefun p Hq Hx Hc t y _ i Hy (odefun_Ok p Hq Hx Hc t y Hy) Hi).
    rewrite Nat.add_1_r. f_equal. unfold Qcdiv. ring.
  - intros Hn. rewrite !lookup_dq by (done || lia). unfold Heat.dq_spec.
    rewrite bool_decide_eq_false_2, bool_decide_eq_true_2 by lia.
    rewrite bool_decide_eq_true_2, bool_decide_eq_false_2 by lia.
    replace (Heat.Nx p - 1 - 1)%nat with (Heat.Nx p - 2)%nat by lia.
    split; f_equal; simpl; ring.
Qed.

(** A small parameter set used to exercise the heat theorems:
    [c = 5], [q = [1, 3, 7]], [x = [0, 1, 2, 3]], [Nx = 3]. *)
Lemma sample_well_formed (a : Qc) :
  Heat.well_formed
    (Heat.Params (lit 5 1) [1; lit 3 1; lit 7 1] [Q2Qc 0; 1; lit 2 1; lit 3 1] a 3).
Proof.
  unfold Heat.well_formed. simpl.
  split; [reflexivity|]. split; [reflexivity|]. split; by_eval.
Defined.

Lemma heat_odefun_formula_witness :
  let p := Heat.Params (lit 5 1) [1; lit 3 1; lit 7 1] [Q2Qc 0; 1; lit 2 1; lit 3 1]
             (lit 1 100) 3 in
  let y := [1; 1; lit 4 1] in
  Heat.well_formed p ∧ length y = Heat.Nx p ∧
  ∃ r, Heat.odefun 0 y p = Ok r ∧
       r !! 1%nat = Some (- (1 / lit 5 1)
                          * (Heat.dq_spec (Heat.q p) 3 1 / (lit 2 1 - 1) - lit 1 100 * 1)).
Proof.
  intros p y. split; [apply sample_well_formed|]. split; [reflexivity|].
  destruct (heat_odefun_formula 0 y p (sample_well_formed _) eq_refl)
    as (r & d & Hr & _ & _ & Hcells & _).
  exists r. split; [exact Hr|].
  exact (proj2 (Hcells 1%nat ltac:(simpl; lia))).
Defined.

(** ** The heat right-hand side over an arbitrary arithmetic *)

Lemma arith_broadcast_to_same {A} n (v : list A) :
  length v = n → NpA.broadcast_to n v = Ok v.
Proof. intros Hv. unfold NpA.broadcast_to. by rewrite bool_decide_eq_true_2. Qed.

Lemma arith_broadcast2_same {A} (f : A → A → A) (a b : list A) :
  length a = length b → NpA.broadcast2 f a b = Ok (zip_with f a b).
Proof. intros Hab. unfold NpA.broadcast2. by rewrite bool_decide_eq_true_2. Qed.

Lemma map1_zip_with {A} (g : A → A) (f : A → A → A) (h : A → A) (k y : list A) :
  NpA.map1 g (zip_with f k (NpA.map1 h y)) = zip_with (λ ki v, g (f ki (h v))) k y.
Proof.
  unfold NpA.map1. revert y.
  induction k as [|ki k IH]; intros [|v y]; csimpl; [done..|]. by rewrite IH.
Qed.

Section HeatArithmetic.
Context (F : arithmetic).

Lemma arith_length_zeros n : length (NpA.zeros F n) = n.
Proof. apply length_replicate. Qed.


Lemma arith_length_diff (l : list (num F)) : length (NpA.diff F l) = (length l - 1)%nat.
Proof. unfold NpA.diff. rewrite length_zip_with, length_drop. lia. Qed.


Variable p : HeatA.params F.
Hypothesis Hq : length (HeatA.q p) = HeatA.Nx p.

Lemma arith_length_dq_left : length (HeatA.dq_left F p) = HeatA.Nx p.
Proof using Hq.
  unfold HeatA.dq_left, NpA.map1.
  rewrite length_app, length_take, arith_length_zeros, length_fmap, arith_length_diff. lia.
Qed.

Lemma arith_length_dq_right : length (HeatA.dq_right F p) = HeatA.Nx p.
Proof using Hq.
  unfold HeatA.dq_right.
  rewrite length_app, length_drop, arith_length_zeros, arith_length_diff. lia.
Qed.

Lemma arith_dq_Ok :
  HeatA.dq F p = Ok (zip_with (fadd F) (HeatA.dq_left F p) (HeatA.dq_right F p)).
Proof using Hq.
  unfold HeatA.dq, NpA.set_1_, NpA.set__m1, sl_1_, sl__m1.
  rewrite !arith_broadcast_to_same
    by (unfold NpA.map1;
        rewrite ?length_fmap, ?arith_length_diff, ?length_take, ?length_drop,
          ?arith_length_zeros; lia).
  simpl. rewrite arith_length_zeros.
  apply arith_broadcast2_same. fold (HeatA.dq_left F p) (HeatA.dq_right F p).
  by rewrite arith_length_dq_left, arith_length_dq_right.
Qed.



Hypothesis Hx : length (HeatA.x p) = S (HeatA.Nx p).
Hypothesis Hc : fis_zero F (HeatA.c p) = false.

(** The quotient [dq / np.diff(x)], which the state does not enter. *)
Lemma arith_length_flux_quotient :
  length (zip_with (fdiv F) (zip_with (fadd F) (HeatA.dq_left F p) (HeatA.dq_right F p))
            (NpA.diff F (HeatA.x p)))
  = HeatA.Nx p.
Proof using Hq Hx.
  rewrite !length_zip_with, arith_length_dq_left, arith_length_dq_right, arith_length_diff.
  lia.
Qed.

Lemma arith_odefun_Ok t (y : list (num F)) :
  length y = HeatA.Nx p →
  HeatA.odefun F t y p
  = Ok (zip_with (λ ki v, fmul F (fopp F (frecip F (HeatA.c p)))
                            (fsub F ki (fmul F v (HeatA.a p))))
          (zip_with (fdiv F) (zip_with (fadd F) (HeatA.dq_left F p) (HeatA.dq_right F p))
             (NpA.diff F (HeatA.x p)))
          y).
Proof using Hq Hx Hc.
  intros Hy. unfold HeatA.odefun. rewrite arith_dq_Ok. simpl.
  unfold NpA.pow_m1. rewrite Hc. simpl.
  rewrite arith_broadcast2_same.
  2:{ rewrite length_zip_with, arith_length_dq_left, arith_length_dq_right,
        arith_length_diff. lia. }
  simpl. rewrite arith_broadcast2_same.
  2:{ unfold NpA.map1 at 1. by rewrite arith_length_flux_quotient, length_fmap. }
  simpl. by rewrite map1_zip_with.
Qed.

End HeatArithmetic.

(** Interpreted exactly, the right-hand side over an arithmetic is the
    rational embedding [Heat.odefun]. *)
Lemma heat_odefun_rational (t : Qc) (y : list Qc) (p : Heat.params) :
  HeatA.odefun rational t y
    (HeatA.Params rational (Heat.c p) (Heat.q p) (Heat.x p) (Heat.a p) (Heat.Nx p))
  = Heat.odefun t y p.
Proof. reflexivity. Qed.

(** The parameters of the examples below: an exactly uniform grid of three
    cells, [c = 5]. *)
Lemma sample_well_formed_binary64 (q : list float) (a : float) :
  length q = 3%nat →
  HeatA.well_formed binary64
    (HeatA.Params binary64 5%float q [0; 1; 2; 3]%float a 3).
Proof.
  intros Hq. unfold HeatA.well_formed. simpl.
  split; [exact Hq|]. split; [reflexivity|]. split; [reflexivity|].
  repeat constructor.
Defined.




(** C10 (as amended) - the flux part of the heat right-hand side is fixed by
    the parameters, and the time is never read: there is a vector [k],
    namely [dq / np.diff(x)], determined by [q] and the grid alone, such that
    for every time and every state of length [Nx] entry [i] of the returned
    vector is [-(C**(-1)) * (k[i] - y[i]*a)]; the result at any two times is
    the same.  This holds in whatever arithmetic the operations are carried
    out, in binary64 in particular. *)
Theorem heat_odefun_time_independent (F : arithmetic) (p : HeatA.params F) :
  HeatA.well_formed F p →
  ∃ dq k,
    HeatA.dq F p = Ok dq ∧ k = zip_with (fdiv F) dq (NpA.diff F (HeatA.x p)) ∧
    length k = HeatA.Nx p ∧
    (∀ t y, length y = HeatA.Nx p →
       HeatA.odefun F t y p
       = Ok (zip_with (λ ki v, fmul F (fopp F (frecip F (HeatA.c p)))
                                 (fsub F ki (fmul F v (HeatA.a p)))) k y)) ∧
    (∀ t t' y, HeatA.odefun F t y p = HeatA.odefun F t' y p).
Proof.
  intros (Hq & Hx & Hc & _).
  eexists _, _. split; [by apply arith_dq_Ok|]. split; [reflexivity|].
  split; [by apply arith_length_flux_quotient|].
  split; [|reflexivity].
  intros t y Hy. by apply arith_odefun_Ok.
Qed.

(** C10 as stated fails on the code, which computes in binary64: for
    [C = 5], [a = 0.01] and the states [y = [1, 1, 4]], [y' = [2, 0, 1]] the
    difference of the two returned vectors is not [(a/C) * (y - y')]. *)
Lemma heat_odefun_difference_rounds :
  let p := HeatA.Params binary64 5%float [1; 3; 7]%float [0; 1; 2; 3]%float
             0.01%float 3 in
  let y := [1; 1; 4]%float in
  let y' := [2; 0; 1]%float in
  HeatA.well_formed binary64 p ∧ length y = HeatA.Nx p ∧ length y' = HeatA.Nx p ∧
  ∃ r r',
    HeatA.odefun binary64 0%float y p = Ok r ∧
    HeatA.odefun binary64 1%float y' p = Ok r' ∧
    zip_with PrimFloat.sub r r'
    = [-0.0020000000000000018; 0.0020000000000000018; 0.006000000000000005]%float ∧
    NpA.map1 (PrimFloat.mul (0.01 / 5)%float) (zip_with PrimFloat.sub y y')
    = [-0.002; 0.002; 0.006]%float ∧
    zip_with PrimFloat.sub r r'
    ≠ NpA.map1 (PrimFloat.mul (0.01 / 5)%float) (zip_with PrimFloat.sub y y').
Proof.
  intros p y y'. split; [by apply sample_well_formed_binary64|].
  split; [reflexivity|]. split; [reflexivity|].
  eexists _, _. split; [vm_compute; reflexivity|]. split; [vm_compute; reflexivity|].
  split; [vm_compute; reflexivity|]. split; [vm_compute; reflexivity|].
  vm_compute. intros H. discriminate H.
Qed.

Lemma heat_odefun_time_independent_witness :
  let p := HeatA.Params binary64 5%float [1; 3; 7]%float [0; 1; 2; 3]%float
             0.01%float 3 in
  let y := [1; 1; 4]%float in
  HeatA.well_formed binary64 p ∧ length y = HeatA.Nx p ∧
  ∃ k, length k = 3%nat ∧
       HeatA.odefun binary64 0%float y p
       = Ok (zip_with (λ ki v, (- (1 / 5) * (ki - v * 0.01))%float) k y) ∧
       HeatA.odefun binary64 0%float y p = HeatA.odefun binary64 50%float y p.
Proof.
  intros p y.
  assert (Hwf : HeatA.well_formed binary64 p) by (by apply sample_well_formed_binary64).
  split; [exact Hwf|]. split; [reflexivity|].
  destruct (heat_odefun_time_independent binary64 p Hwf)
    as (dq & k & _ & _ & Hlen & Hform & Ht).
  exists k. split; [exact Hlen|].
  split; [exact (Hform 0%float y eq_refl) | exact (Ht 0%float 50%float y)].
Defined.

(** The grid of the heat notebook has eleven points, and with any flux
    array of ten entries the notebook's parameters are well formed; the
    right-hand side is then defined on the initial profile. *)
Lemma heat_notebook_well_formed :
  ∃ xs, Heat.Notebook.x = Ok xs ∧ length xs = 11%nat ∧
        ∀ q, length q = 10%nat →
          Heat.well_formed (Heat.Notebook.params q xs) ∧
          is_Ok (Heat.odefun 0 Heat.Notebook.T_init (Heat.Notebook.params q xs)).
Proof.
  exists ((λ k : nat, lit (Z.of_nat k) 10) <$> seq 0 11).
  split; [by_eval|]. split; [reflexivity|].
  intros q Hq.
  assert (Hwf : Heat.well_formed
                  (Heat.Notebook.params q ((λ k : nat, lit (Z.of_nat k) 10) <$> seq 0 11))).
  { unfold Heat.well_formed. simpl. split; [done|]. split; [reflexivity|]. split; by_eval. }
  split; [done|].
  destruct Hwf as (H1 & H2 & H3 & _). eexists. by apply odefun_Ok.
Qed.

(** ** Failure of the right-hand sides on a state of the wrong length *)

(** C7 (as amended) - a state vector of the wrong length: the wave [odefun]
    fails with NumPy's [ValueError] on every vector whose length differs from
    [2*Nx*Ny]; the heat [odefun] (with well-formed parameters) fails with
    [ValueError] when the length of the state differs from [Nx] and neither
    that length nor [Nx] is 1.  Neither function catches the error or tries
    again: the call ends with it. *)
Theorem odefun_length_mismatch :
  (∀ u t B a c x y dx dy Nx Ny,
     length u ≠ (2 * Nx * Ny)%nat →
     Wave.odefun u t B a c x y dx dy Nx Ny = Raise ValueError) ∧
  (∀ t y p,
     Heat.well_formed p →
     length y ≠ Heat.Nx p → length y ≠ 1%nat → Heat.Nx p ≠ 1%nat →
     Heat.odefun t y p = Raise ValueError).
Proof.
  split.
  - intros u t B a c x y dx dy Nx Ny Hu. unfold Wave.odefun.
    by rewrite unpack_Raise.
  - intros t y p (Hq & Hx & Hc & _) Hy Hy1 Hn1. by apply odefun_Raise.
Qed.

Lemma odefun_length_mismatch_witness :
  let p := Heat.Params (lit 5 1) [1; lit 3 1; lit 7 1] [Q2Qc 0; 1; lit 2 1; lit 3 1] 1 3 in
  let g := [Q2Qc 0; 1; lit 2 1] in
  (length (zeros 17) ≠ (2 * 3 * 3)%nat ∧
   Wave.odefun (zeros 17) 0 1 1 1 g g 1 1 3 3 = Raise ValueError) ∧
  (Heat.well_formed p ∧ length [1; 1] ≠ Heat.Nx p ∧ length [1; 1] ≠ 1%nat ∧
   Heat.Nx p ≠ 1%nat ∧
   Heat.odefun 0 [1; 1] p = Raise ValueError).
Proof.
  intros p g. destruct odefun_length_mismatch as [Hwave Hheat].
  assert (H17 : length (zeros 17) ≠ (2 * 3 * 3)%nat) by (simpl; lia).
  assert (H2 : length [1; 1] ≠ Heat.Nx p) by (simpl; lia).
  assert (H21 : length [1; 1] ≠ 1%nat) by (simpl; lia).
  assert (Hn : Heat.Nx p ≠ 1%nat) by (simpl; lia).
  split.
  - split; [exact H17|]. exact (Hwave _ 0 1 1 1 g g 1 1 3%nat 3%nat H17).
  - split; [apply sample_well_formed|].
    split; [exact H2|]. split; [exact H21|]. split; [exact Hn|].
    exact (Hheat 0 [1; 1] p (sample_well_formed _) H2 H21 Hn).
Defined.

(** C7 as stated fails: with [Nx = 3], the heat [odefun] accepts a state of
    length 1 - NumPy stretches it over the three cells - and returns a vector
    of length 3 instead of raising. *)
Lemma heat_odefun_accepts_length_one :
  let p := Heat.Params (lit 5 1) [1; lit 3 1; lit 7 1] [Q2Qc 0; 1; lit 2 1; lit 3 1] 1 3 in
  Heat.well_formed p ∧ length [Q2Qc 1] ≠ Heat.Nx p ∧
  Heat.odefun 0 [1] p = Ok [lit (-1) 5; lit (-1) 5; 1].
Proof.
  intros p. split; [apply sample_well_formed|]. split; [simpl; lia|]. by_eval.
Qed.

(** ** The drivers *)

Lemma linspace_50 :
  linspace 0 (lit 50 1) 51 = Ok ((λ k : nat, lit (Z.of_nat k) 1) <$> seq 0 51).
Proof. by_eval. Qed.

Lemma linspace_100 :
  linspace 0 (lit 100 1) 101 = Ok ((λ k : nat, lit (Z.of_nat k) 1) <$> seq 0 101).
Proof. by_eval. Qed.

(** C8 (as amended) - the drivers hand back whatever the integrator gives:
    each notebook calls [solve_ivp] once, on its right-hand side, time span,
    initial state and the evaluation times [0, 1, ..., 50] (heat) or
    [0, 1, ..., 100] (wave), and the outcome of that one call - a result
    object, successful or not, or an exception - is the outcome of the
    driver.  No status is inspected and nothing is retried. *)
Theorem driver_returns_integrator_outcome (solve_ivp : integrator) :
  (∀ p T_init,
     Driver.heat solve_ivp p T_init
     = solve_ivp (λ t y, Heat.odefun t y p) (0, lit 50 1) T_init
         ((λ k : nat, lit (Z.of_nat k) 1) <$> seq 0 51)) ∧
  (∀ B a c x y dx dy Nx Ny,
     Driver.wave solve_ivp B a c x y dx dy Nx Ny
     = solve_ivp (λ t u, Wave.odefun u t B a c x y dx dy Nx Ny) (0, lit 100 1)
         (zeros (2 * Nx * Ny)) ((λ k : nat, lit (Z.of_nat k) 1) <$> seq 0 101)).
Proof.
  split.
  - intros p T_init. unfold Driver.heat. by rewrite linspace_50.
  - intros B a c x y dx dy Nx Ny. unfold Driver.wave. by rewrite linspace_100.
Qed.

(** C8 as stated fails: when the integrator reports failure, both drivers
    return its result object, with [success = false], and raise nothing. *)
Lemma driver_exposes_failed_result :
  let p := Heat.Params (lit 5 1) [1; lit 3 1; lit 7 1] [Q2Qc 0; 1; lit 2 1; lit 3 1] 1 3 in
  let g := [Q2Qc 0; 1; lit 2 1] in
  (∃ r, Driver.heat Driver.failing_ivp p [1; 1; lit 4 1] = Ok r ∧ success r = false) ∧
  (∃ r, Driver.wave Driver.failing_ivp 1 1 1 g g 1 1 3 3 = Ok r ∧ success r = false).
Proof.
  intros p g. split; eexists.
  - split; [unfold Driver.heat; rewrite linspace_50; reflexivity | reflexivity].
  - split; [unfold Driver.wave; rewrite linspace_100; reflexivity | reflexivity].
Qed.

(** ** Grid construction *)

Section GridArithmetic.
Context (F : arithmetic).

Lemma arith_length_arange n : length (NpA.arange F n) = n.
Proof. unfold NpA.arange. by rewrite length_fmap, length_seq. Qed.

Lemma arith_lookup_arange n i : (i < n)%nat → NpA.arange F n !! i = Some (fnat F i).
Proof. intros Hi. unfold NpA.arange. by rewrite list_lookup_fmap, lookup_seq_lt. Qed.

Lemma arith_linspace_Raise start stop (n : Z) :
  (n < 0)%Z → NpA.linspace F start stop n = Raise ValueError.
Proof. intros Hn. unfold NpA.linspace. by rewrite bool_decide_eq_true_2. Qed.

Lemma arith_linspace_0 start stop : NpA.linspace F start stop 0 = Ok [].
Proof. reflexivity. Qed.

Lemma arith_linspace_1 start stop :
  NpA.linspace F start stop 1
  = Ok [fadd F (fmul F (fnat F 0) (fsub F stop start)) start].
Proof. reflexivity. Qed.

(** The samples of [linspace] for at least two points: the last one is
    [stop] itself, the others are computed from the step. *)
Lemma arith_linspace_cells start stop (n : nat) :
  (2 ≤ n)%nat →
  ∃ xs, NpA.linspace F start stop (Z.of_nat n) = Ok xs ∧ length xs = n ∧
        xs !! (n - 1)%nat = Some stop ∧
        ∀ i, (i < n - 1)%nat →
          xs !! i = Some (NpA.linspace_sample F start stop (n - 1) i).
Proof.
  intros Hn. unfold NpA.linspace.
  rewrite bool_decide_eq_false_2 by lia. rewrite Nat2Z.id.
  rewrite !bool_decide_eq_true_2 by lia.
  eexists. split; [done|].
  set (ys := NpA.map1 (λ v, fadd F v start) _).
  assert (Hlen : length ys = n).
  { unfold ys, NpA.map1. destruct (fis_zero F _);
      by rewrite !length_fmap, arith_length_arange. }
  split; [by rewrite length_insert|].
  split; [by rewrite list_lookup_insert_eq by lia|].
  intros i Hi. rewrite list_lookup_insert_ne by lia.
  unfold ys, NpA.linspace_sample, NpA.map1.
  destruct (fis_zero F _);
    by rewrite !list_lookup_fmap, arith_lookup_arange by lia.
Qed.

Variables (l d : num F).

Lemma arith_grid_axis_zero_step :
  fis_zero F d = true → GridA.grid_axis F l d = Raise ZeroDivisionError.
Proof using Type. intros Hd. unfold GridA.grid_axis, NpA.truediv. by rewrite Hd. Qed.

Lemma arith_grid_axis_int_Raise e :
  fis_zero F d = false → fint F (fdiv F l d) = Raise e →
  GridA.grid_axis F l d = Raise e.
Proof using Type.
  intros Hd He. unfold GridA.grid_axis, NpA.truediv. rewrite Hd. simpl. by rewrite He.
Qed.

Lemma arith_grid_axis_unfold n :
  fis_zero F d = false → fint F (fdiv F l d) = Ok n →
  GridA.grid_axis F l d
  = (x ← NpA.linspace F (fzero F) l (n + 1); Ok ((n + 1)%Z, x)).
Proof using Type.
  intros Hd Hn. unfold GridA.grid_axis, NpA.truediv. rewrite Hd. simpl. by rewrite Hn.
Qed.

End GridArithmetic.

(** [int] on a float that is an infinity or not a number. *)
Lemma int_of_float_infinity (v : float) s :
  Prim2SF v = S754_infinity s → int_of_float v = Raise OverflowError.
Proof. intros Hv. unfold int_of_float. by rewrite Hv. Qed.

Lemma int_of_float_nan (v : float) :
  Prim2SF v = S754_nan → int_of_float v = Raise ValueError.
Proof. intros Hv. unfold int_of_float. by rewrite Hv. Qed.

(** Interpreted exactly, the grid set-up over an arithmetic is the rational
    embedding [Wave.grid_axis]. *)
Lemma grid_axis_rational (l d : Qc) : GridA.grid_axis rational l d = Wave.grid_axis l d.
Proof.
  unfold GridA.grid_axis, Wave.grid_axis, NpA.truediv, truediv. simpl.
  case_bool_decide as Hd; [done|]. simpl.
  unfold NpA.linspace, linspace.
  case_bool_decide as Hn; [done|]. simpl. do 3 f_equal.
  assert (Hmap : ∀ (f g : Qc → Qc) (ys : list Qc),
            (∀ v, g v = f v + 0) → NpA.map1 (λ v, v + 0) (NpA.map1 f ys) = map1 g ys).
  { intros f g ys Hfg. unfold NpA.map1, map1. rewrite <- list_fmap_compose.
    apply list_fmap_ext. intros _ v _. simpl. by rewrite Hfg. }
  change (NpA.arange rational) with arange.
  repeat case_bool_decide; try (apply (f_equal (insert _ l)));
    apply Hmap; intros v; unfold Qcdiv; ring.
Qed.

(** C9 (as amended) - grid construction
    [N = int(length/step) + 1; x = np.linspace(0, length, N)] validates
    nothing itself and raises no [ConfigurationError].  A step equal to 0
    ends in Python's [ZeroDivisionError]; an exception of [int] on the
    quotient ends the construction (in binary64, [OverflowError] for an
    infinite quotient and [ValueError] for NaN); a negative [N] ends in
    NumPy's [ValueError]; every other input, non-positive ones included, is
    accepted.  The grid then has [N = int(length/step) + 1] points, where
    [length/step] is the quotient as the arithmetic computes it; for
    [N >= 2] the last point is [length] itself and point [i < N - 1] is
    [i * step' + 0] with [step' = (length - 0) / (N - 1)] (or
    [i / (N - 1) * (length - 0) + 0] when that step is 0); for [N = 1] the
    grid is the single point [0 * (length - 0) + 0]. *)
Theorem grid_axis_behaviour :
  (∀ (F : arithmetic) (l d : num F),
     (fis_zero F d = true → GridA.grid_axis F l d = Raise ZeroDivisionError) ∧
     (fis_zero F d = false →
      (∀ e, fint F (fdiv F l d) = Raise e → GridA.grid_axis F l d = Raise e) ∧
      (∀ n, fint F (fdiv F l d) = Ok n →
         ((n + 1 < 0)%Z → GridA.grid_axis F l d = Raise ValueError) ∧
         ((n + 1 = 0)%Z → GridA.grid_axis F l d = Ok (0%Z, [])) ∧
         ((n + 1 = 1)%Z →
          GridA.grid_axis F l d
          = Ok (1%Z, [fadd F (fmul F (fnat F 0) (fsub F l (fzero F))) (fzero F)])) ∧
         ((2 ≤ n + 1)%Z →
          ∃ xs, GridA.grid_axis F l d = Ok ((n + 1)%Z, xs) ∧
                Z.of_nat (length xs) = (n + 1)%Z ∧
                xs !! Z.to_nat n = Some l ∧
                ∀ i, (i < Z.to_nat n)%nat →
                  xs !! i = Some (NpA.linspace_sample F (fzero F) l (Z.to_nat n) i))))) ∧
  (∀ (l d : float) s,
     fis_zero binary64 d = false → Prim2SF (l / d)%float = S754_infinity s →
     GridA.grid_axis binary64 l d = Raise OverflowError) ∧
  (∀ l d : float,
     fis_zero binary64 d = false → Prim2SF (l / d)%float = S754_nan →
     GridA.grid_axis binary64 l d = Raise ValueError).
Proof.
  split; [|split].
  - intros F l d. split; [apply arith_grid_axis_zero_step|].
    intros Hd. split; [intros e; by apply arith_grid_axis_int_Raise|].
    intros n Hn. rewrite (arith_grid_axis_unfold F l d n Hd Hn).
    split; [|split; [|split]].
    + intros Hneg. by rewrite arith_linspace_Raise.
    + intros ->. reflexivity.
    + intros ->. reflexivity.
    + intros Hn2.
      destruct (arith_linspace_cells F (fzero F) l (Z.to_nat (n + 1)))
        as (xs & Hxs & Hlen & Hlast & Hcells); [lia|].
      rewrite Z2Nat.id in Hxs by lia.
      replace (Z.to_nat (n + 1) - 1)%nat with (Z.to_nat n) in Hlast, Hcells by lia.
      exists xs. rewrite Hxs. split; [done|]. split; [lia|]. split; done.
  - intros l d s Hd Hinf. apply arith_grid_axis_int_Raise; [done|].
    simpl. by eapply int_of_float_infinity.
  - intros l d Hd Hnan. apply arith_grid_axis_int_Raise; [done|].
    simpl. by apply int_of_float_nan.
Qed.

Lemma grid_axis_behaviour_witness :
  fis_zero binary64 0.1%float = false ∧
  fint binary64 (0.3 / 0.1)%float = Ok 2%Z ∧
  (∃ xs, GridA.grid_axis binary64 0.3%float 0.1%float = Ok (3%Z, xs) ∧
         Z.of_nat (length xs) = 3%Z ∧ xs !! 2%nat = Some 0.3%float ∧
         xs !! 1%nat = Some 0.15%float) ∧
  Prim2SF (1e308 / 1e-308)%float = S754_infinity false ∧
  GridA.grid_axis binary64 1e308%float 1e-308%float = Raise OverflowError.
Proof.
  assert (Hd : fis_zero binary64 0.1%float = false) by (vm_compute; reflexivity).
  assert (Hn : fint binary64 (0.3 / 0.1)%float = Ok 2%Z) by (vm_compute; reflexivity).
  assert (Hinf : Prim2SF (1e308 / 1e-308)%float = S754_infinity false)
    by (vm_compute; reflexivity).
  destruct grid_axis_behaviour as (Hgen & Hover & _).
  split; [exact Hd|]. split; [exact Hn|]. split.
  - destruct (Hgen binary64 0.3%float 0.1%float) as (_ & Hok).
    destruct (Hok Hd) as (_ & Hcount).
    destruct (Hcount 2%Z Hn) as (_ & _ & _ & Hgrid).
    destruct (Hgrid ltac:(lia)) as (xs & Hxs & Hlen & Hlast & Hcells).
    exists xs. split; [exact Hxs|]. split; [exact Hlen|]. split; [exact Hlast|].
    etrans; [exact (Hcells 1%nat ltac:(simpl; lia))|]. vm_compute. reflexivity.
  - split; [exact Hinf|].
    apply (Hover 1e308%float 1e-308%float false); [vm_compute; reflexivity | exact Hinf].
Defined.

(** C9 as stated fails: a domain of length 0 and a negative step are accepted
    without any error, and for the valid input [length = 1/10],
    [step = 1/4] the grid is the single point 0 and misses the end point. *)
Lemma grid_axis_accepts_nonpositive :
  Wave.grid_axis 0 (lit 1 4) = Ok (1%Z, [Q2Qc 0]) ∧
  Wave.grid_axis 1 (lit (-2) 1) = Ok (1%Z, [Q2Qc 0]) ∧
  Wave.grid_axis (lit 1 10) (lit 1 4) = Ok (1%Z, [Q2Qc 0]).
Proof. repeat split; by_eval. Qed.

(** The same three inputs in binary64: the same one-point grids. *)
Lemma grid_axis_one_point_binary64 :
  GridA.grid_axis binary64 0%float 0.25%float = Ok (1%Z, [0%float]) ∧
  GridA.grid_axis binary64 1%float (-2)%float = Ok (1%Z, [0%float]) ∧
  GridA.grid_axis binary64 0.1%float 0.25%float = Ok (1%Z, [0%float]).
Proof. repeat split; vm_compute; reflexivity. Qed.

(** ** The interior stencil *)

Lemma cell_sl2 {A} (rs : list (list A) → list (list A)) (cs : list A → list A)
    (fr fc : nat → nat) Nx Ny (m : list (list A)) i j :
  has_shape Nx Ny m →
  (∀ (l : list (list A)) k, (k < length l - 2)%nat → rs l !! k = l !! fr k) →
  (∀ (l : list A) k, (k < length l - 2)%nat → cs l !! k = l !! fc k) →
  (i < Nx - 2)%nat → (j < Ny - 2)%nat → (fr i < Nx)%nat →
  cell (sl2 rs cs m) i j = cell m (fr i) (fc j).
Proof.
  intros [Hn Hrows] Hrs Hcs Hi Hj Hfr. unfold cell, sl2.
  rewrite list_lookup_fmap, Hrs by lia.
  destruct (lookup_lt_is_Some_2 m (fr i)) as [row Hrow]; [lia|].
  rewrite Hrow. simpl. apply Hcs.
  rewrite Forall_lookup in Hrows. rewrite (Hrows _ _ Hrow). lia.
Qed.

Lemma cell_total {A} `{Inhabited A} Nx Ny (l : list A) i j :
  length l = (Nx * Ny)%nat → (i < Nx)%nat → (j < Ny)%nat →
  cell (rows Nx Ny l) i j = Some (l !!! Wave.pos1 Nx Ny i j).
Proof.
  intros Hl Hi Hj. rewrite cell_rows by done. fold (Wave.pos1 Nx Ny i j).
  destruct (lookup_lt_is_Some_2 l (Wave.pos1 Nx Ny i j)) as [v Hv].
  { rewrite Hl. by apply pos1_lt. }
  by rewrite Hv, (list_lookup_total_correct _ _ _ Hv).
Qed.

(** A cell of the array assigned to [dy2dt[1:-1, 1:-1]]: the five-point
    stencil around cell [(i+1, j+1)] of the displacement field. *)
Lemma cell_interior_term (c dx dy : Qc) Nx Ny (l : list Qc) i j :
  length l = (Nx * Ny)%nat → (i < Nx - 2)%nat → (j < Ny - 2)%nat →
  cell (Wave.interior_term c dx dy (rows Nx Ny l)) i j
  = Some (c ^ 2
          * ((l !!! Wave.pos1 Nx Ny (S (S i)) (S j)
              - lit 2 1 * l !!! Wave.pos1 Nx Ny (S i) (S j)
              + l !!! Wave.pos1 Nx Ny i (S j)) / dx ^ 2
             + (l !!! Wave.pos1 Nx Ny (S i) (S (S j))
                - lit 2 1 * l !!! Wave.pos1 Nx Ny (S i) (S j)
                + l !!! Wave.pos1 Nx Ny (S i) j) / dy ^ 2)).
Proof.
  intros Hl Hi Hj.
  assert (Hs := rows_shape Nx Ny l Hl).
  unfold Wave.interior_term.
  rewrite !cell_smap, !cell_map2, !cell_smap, !cell_map2, !cell_smap.
  rewrite (cell_sl2 sl_1_m1 sl_1_m1 S S Nx Ny), (cell_sl2 sl_2_ sl_1_m1 (λ k, S (S k)) S Nx Ny),
    (cell_sl2 sl__m2 sl_1_m1 id S Nx Ny), (cell_sl2 sl_1_m1 sl_2_ S (λ k, S (S k)) Nx Ny),
    (cell_sl2 sl_1_m1 sl__m2 S id Nx Ny);
    unfold id;
    try (done || lia || (intros; apply lookup_sl_1_m1; lia)
         || (intros; apply lookup_sl_2_) || (intros; apply lookup_sl__m2; lia)).
  rewrite !cell_total by (done || lia). done.
Qed.


(** * Further properties of the code *)

(** ** The forcing term on grids that do not match the array *)

Lemma setitem2_Raise {A} Nx Ny (u : list (list A)) ix iy v :
  has_shape Nx Ny u → (Nx ≤ ix)%nat ∨ (Ny ≤ iy)%nat →
  setitem2 u ix iy v = Raise IndexError.
Proof.
  intros [Hn Hrows] Hbad. unfold setitem2.
  destruct (u !! ix) as [row|] eqn:Hrow; [|done].
  assert (ix < Nx)%nat by (rewrite <- Hn; by eapply lookup_lt_Some).
  rewrite Forall_lookup in Hrows.
  rewrite bool_decide_eq_false_2; [done|]. rewrite (Hrows _ _ Hrow). lia.
Qed.

Lemma for_each_nop {S} (l : list nat) (s : S) : for_each l (λ _ s, Ok s) s = Ok s.
Proof. induction l as [|i l IH]; simpl; done. Qed.

Lemma for_each_preserves {S} (P : S → Prop) (body : nat → S → result S) l s s' :
  (∀ i s s', P s → body i s = Ok s' → P s') →
  P s → for_each l body s = Ok s' → P s'.
Proof.
  intros Hbody. revert s. induction l as [|i l IH]; intros s HP Hrun; simpl in Hrun.
  - by injection Hrun as <-.
  - destruct (body i s) as [s1|e] eqn:Hb; [|done]. simpl in Hrun. eauto.
Qed.

Section ForceLoops.
Variables (Nx Ny : nat) (B : Qc).

(** The inner loop [for iy in ind_y: u[ix,iy] = B]. *)
Lemma inner_loop_Ok (ind_y : list nat) ix (u : list (list Qc)) :
  has_shape Nx Ny u → (ix < Nx)%nat → Forall (λ iy, (iy < Ny)%nat) ind_y →
  ∃ u', for_each ind_y (λ iy u, setitem2 u ix iy B) u = Ok u' ∧ has_shape Nx Ny u'.
Proof.
  intros Hu Hix Hind. revert u Hu.
  induction Hind as [|iy ind_y Hiy _ IH]; intros u Hu; simpl; [by exists u|].
  destruct (setitem2_Ok Nx Ny u ix iy B Hu Hix Hiy) as (u1 & -> & Hu1 & _). simpl.
  by apply IH.
Qed.

Lemma inner_loop_Raise (ind_y : list nat) ix (u : list (list Qc)) :
  has_shape Nx Ny u → ind_y ≠ [] →
  (Nx ≤ ix)%nat ∨ ¬ Forall (λ iy, (iy < Ny)%nat) ind_y →
  for_each ind_y (λ iy u, setitem2 u ix iy B) u = Raise IndexError.
Proof.
  intros Hu Hne Hbad. revert u Hu.
  induction ind_y as [|iy ind_y IH]; intros u Hu; [done|]. simpl.
  destruct (decide (ix < Nx ∧ iy < Ny)%nat) as [[Hix Hiy]|Hout].
  - destruct (setitem2_Ok Nx Ny u ix iy B Hu Hix Hiy) as (u1 & -> & Hu1 & _). simpl.
    apply IH; [|right|done].
    + intros ->. destruct Hbad as [?|Hbad]; [lia|]. apply Hbad. by repeat constructor.
    + destruct Hbad as [?|Hbad]; [lia|]. intros Hall. apply Hbad. by constructor.
  - rewrite (setitem2_Raise Nx Ny) by (done || lia). done.
Qed.

(** The double loop of [external_force]. *)
Lemma force_loop_Raise (ind_x ind_y : list nat) (u : list (list Qc)) :
  has_shape Nx Ny u → ind_x ≠ [] → ind_y ≠ [] →
  ¬ (Forall (λ ix, (ix < Nx)%nat) ind_x ∧ Forall (λ iy, (iy < Ny)%nat) ind_y) →
  for_each ind_x (λ ix u, for_each ind_y (λ iy u, setitem2 u ix iy B) u) u
  = Raise IndexError.
Proof.
  intros Hu Hnx Hny Hbad. revert u Hu.
  induction ind_x as [|ix ind_x IH]; intros u Hu; [done|]. simpl.
  destruct (decide (ix < Nx)%nat) as [Hix|Hix];
    [destruct (decide (Forall (λ iy, (iy < Ny)%nat) ind_y)) as [Hall|Hall]|].
  - destruct (inner_loop_Ok ind_y ix u Hu Hix Hall) as (u1 & -> & Hu1). simpl.
    apply IH; [| |done].
    + intros ->. apply Hbad. split; [by repeat constructor|done].
    + intros [Hx Hy]. apply Hbad. split; [by constructor|done].
  - rewrite inner_loop_Raise by (done || by right). done.
  - rewrite inner_loop_Raise by (done || left; lia). done.
Qed.

Lemma force_loop_Ok (ind_x ind_y : list nat) (u : list (list Qc)) :
  has_shape Nx Ny u →
  Forall (λ ix, (ix < Nx)%nat) ind_x → Forall (λ iy, (iy < Ny)%nat) ind_y →
  is_Ok (for_each ind_x (λ ix u, for_each ind_y (λ iy u, setitem2 u ix iy B) u) u).
Proof.
  intros Hu Hx Hy. revert u Hu.
  induction Hx as [|ix ind_x Hix _ IH]; intros u Hu; simpl; [by eexists|].
  destruct (inner_loop_Ok ind_y ix u Hu Hix Hy) as (u1 & -> & Hu1). simpl.
  by apply IH.
Qed.

End ForceLoops.

Lemma external_force_shape (x y : list Qc) (t B : Qc) (Nx Ny : nat) f :
  Wave.external_force x y t B Nx Ny = Ok f → has_shape Nx Ny f.
Proof.
  unfold Wave.external_force. destruct (Wave.in_time t).
  - apply (for_each_preserves (has_shape Nx Ny)); [|apply zeros2_shape].
    intros ix u u' Hu. apply (for_each_preserves (has_shape Nx Ny)); [|done].
    intros iy v v' Hv Hset.
    destruct (decide (ix < Nx ∧ iy < Ny)%nat) as [[Hix Hiy]|Hout].
    + destruct (setitem2_Ok Nx Ny v ix iy B Hv Hix Hiy) as (v1 & Hv1 & Hs & _).
      congruence.
    + rewrite (setitem2_Raise Nx Ny) in Hset by (done || lia). done.
  - intros [= <-]. apply zeros2_shape.
Qed.

Lemma external_force_Raise (x y : list Qc) (t B : Qc) (Nx Ny : nat) :
  Wave.misfit x y t Nx Ny → Wave.external_force x y t B Nx Ny = Raise IndexError.
Proof.
  intros (Ht & Hnx & Hny & Hbad). unfold Wave.external_force. rewrite Ht.
  by apply (force_loop_Raise Nx Ny); [apply zeros2_shape|..].
Qed.

Lemma external_force_is_Ok (x y : list Qc) (t B : Qc) (Nx Ny : nat) :
  ¬ Wave.misfit x y t Nx Ny → is_Ok (Wave.external_force x y t B Nx Ny).
Proof.
  intros Hfit. unfold Wave.external_force.
  destruct (Wave.in_time t) eqn:Ht; [|by eexists].
  destruct (decide (where_ Wave.in_x x = [])) as [Hx0|Hnx]; [rewrite Hx0; by eexists|].
  destruct (decide (where_ Wave.in_y y = [])) as [Hy0|Hny].
  { rewrite Hy0. simpl. rewrite for_each_nop. by eexists. }
  destruct (decide (Forall (λ ix, (ix < Nx)%nat) (where_ Wave.in_x x) ∧
                    Forall (λ iy, (iy < Ny)%nat) (where_ Wave.in_y y))) as [[Hx Hy]|Hbad].
  - by apply (force_loop_Ok Nx Ny); [apply zeros2_shape|..].
  - exfalso. by apply Hfit.
Qed.

Lemma misfit_dec (x y : list Qc) (t : Qc) (Nx Ny : nat) :
  Wave.misfit x y t Nx Ny ∨ ¬ Wave.misfit x y t Nx Ny.
Proof.
  unfold Wave.misfit.
  destruct (decide (Wave.in_time t = true)); [|tauto].
  destruct (decide (where_ Wave.in_x x = [])); [tauto|].
  destruct (decide (where_ Wave.in_y y = [])); [tauto|].
  destruct (decide (Forall (λ ix, (ix < Nx)%nat) (where_ Wave.in_x x) ∧
                    Forall (λ iy, (iy < Ny)%nat) (where_ Wave.in_y y))); tauto.
Qed.

(** X3 - when [external_force] fails: it raises [IndexError] exactly when [t]
    lies in the time window, both index sets picked by [np.where] are
    non-empty, and one of the picked indices lies outside the [Nx]-by-[Ny]
    array; in every other case it returns an [Nx]-by-[Ny] array.  It raises
    nothing else. *)
Theorem external_force_index_error (x y : list Qc) (t B : Qc) (Nx Ny : nat) :
  let ind_x := where_ Wave.in_x x in
  let ind_y := where_ Wave.in_y y in
  let misfit := Wave.in_time t = true ∧ ind_x ≠ [] ∧ ind_y ≠ [] ∧
                ¬ (Forall (λ ix, (ix < Nx)%nat) ind_x ∧
                   Forall (λ iy, (iy < Ny)%nat) ind_y) in
  (misfit → Wave.external_force x y t B Nx Ny = Raise IndexError) ∧
  (¬ misfit → ∃ f, Wave.external_force x y t B Nx Ny = Ok f ∧ has_shape Nx Ny f) ∧
  ((length x ≤ Nx)%nat → (length y ≤ Ny)%nat → ¬ misfit).
Proof.
  intros ind_x ind_y mf. split; [|split].
  - apply external_force_Raise.
  - intros Hfit. destruct (external_force_is_Ok x y t B Nx Ny Hfit) as [f Hf].
    exists f. split; [done|]. by eapply external_force_shape.
  - intros Hx Hy (_ & _ & _ & Hbad). apply Hbad.
    split; apply Forall_forall; intros k Hk%elem_of_where_lt; lia.
Qed.

Lemma external_force_index_error_witness :
  let x := [lit 3 1; lit 3 1; lit 3 1] in
  (Wave.external_force x x (lit 2 1) 1 2 3 = Raise IndexError) ∧
  (∃ f, Wave.external_force x [lit 3 1] (lit 2 1) 1 3 3 = Ok f ∧ has_shape 3 3 f).
Proof.
  intros x.
  destruct (external_force_index_error x x (lit 2 1) 1 2 3) as (Hraise & _ & _).
  destruct (external_force_index_error x [lit 3 1] (lit 2 1) 1 3 3) as (_ & Hok & Hfit).
  split.
  - apply Hraise. split; [reflexivity|]. split; [done|]. split; [done|].
    intros [Hx _]. apply Forall_forall with (x := 2%nat) in Hx; [lia|].
    by_eval.
  - apply Hok, Hfit; simpl; lia.
Defined.

(** ** The wave right-hand side as a whole *)



Lemma cell_laplacian (u : list Qc) (c dx dy : Qc) (Nx Ny i j : nat) :
  length u = (2 * Nx * Ny)%nat → (i < Nx)%nat → (j < Ny)%nat →
  cell (set_interior (zeros2 Nx Ny)
          (Wave.interior_term c dx dy (rows Nx Ny (take (Nx * Ny) u)))) i j
  = Some (Wave.laplacian_cell c dx dy Nx Ny u i j).
Proof.
  intros Hu Hi Hj. unfold Wave.laplacian_cell, Wave.is_interior.
  case_bool_decide as Hint.
  - destruct Hint as (Hi1 & Hi2 & Hj1 & Hj2).
    assert (Ht : length (take (Nx * Ny) u) = (Nx * Ny)%nat) by (rewrite length_take; lia).
    rewrite (cell_set_interior_interior Nx Ny);
      [|apply zeros2_shape|by apply interior_term_shape, rows_shape|lia..].
    rewrite cell_interior_term by (done || lia).
    replace (S (S (i - 1))) with (i + 1)%nat by lia.
    replace (S (i - 1)) with i by lia.
    replace (S (S (j - 1))) with (j + 1)%nat by lia.
    replace (S (j - 1)) with j by lia.
    assert (Htake : ∀ k, (k < Nx * Ny)%nat → take (Nx * Ny) u !!! k = u !!! k).
    { intros k Hk. apply list_lookup_total_correct.
      rewrite lookup_take_lt by done. apply list_lookup_lookup_total_lt. lia. }
    rewrite !Htake by (apply pos1_lt; lia). done.
  - apply cell_laplacian_boundary; [done|]. unfold Wave.boundary. lia.
Qed.

Section WaveEntries.
Variables (u : list Qc) (t B a c : Qc) (x y : list Qc) (dx dy : Qc) (Nx Ny : nat).
Variable f_ext : list (list Qc).
Hypothesis Hu : length u = (2 * Nx * Ny)%nat.
Hypothesis Hf : Wave.external_force x y t B Nx Ny = Ok f_ext.

(** The returned vector in one piece: [y2] flattened, then [dy2dt] flattened. *)
Lemma wave_odefun_form :
  Wave.odefun u t B a c x y dx dy Nx Ny
  = Ok (drop (Nx * Ny) u
        ++ concat (map2 Qcplus
                     (map2 Qcminus
                        (set_interior (zeros2 Nx Ny)
                           (Wave.interior_term c dx dy (rows Nx Ny (take (Nx * Ny) u))))
                        (smap (λ v, a * v) (rows Nx Ny (drop (Nx * Ny) u))))
                     f_ext)).
Proof using Hu Hf.
  assert (Hfs := external_force_shape _ _ _ _ _ _ _ Hf).
  assert (Ht : length (take (Nx * Ny) u) = (Nx * Ny)%nat) by (rewrite length_take; lia).
  assert (Hd : length (drop (Nx * Ny) u) = (Nx * Ny)%nat) by (rewrite length_drop; lia).
  unfold Wave.odefun. rewrite unpack_Ok by done. simpl. rewrite Hf. simpl.
  rewrite (pack_Ok Nx Ny).
  - by rewrite concat_rows.
  - by apply rows_shape.
  - repeat (apply map2_shape || apply smap_shape); try done; try (by apply rows_shape).
    apply set_interior_shape; [apply zeros2_shape|by apply interior_term_shape, rows_shape].
Qed.

(** Every entry of the returned vector, in terms of the packed state. *)
Lemma wave_odefun_entries :
  ∃ r, Wave.odefun u t B a c x y dx dy Nx Ny = Ok r ∧ length r = (2 * Nx * Ny)%nat ∧
       ∀ i j, (i < Nx)%nat → (j < Ny)%nat →
         r !! Wave.pos1 Nx Ny i j = Some (u !!! Wave.pos2 Nx Ny i j) ∧
         ∃ f, cell f_ext i j = Some f ∧
              r !! Wave.pos2 Nx Ny i j
              = Some (Wave.laplacian_cell c dx dy Nx Ny u i j
                      - a * u !!! Wave.pos2 Nx Ny i j + f).
Proof using Hu Hf.
  assert (Hfs := external_force_shape _ _ _ _ _ _ _ Hf).
  assert (Ht : length (take (Nx * Ny) u) = (Nx * Ny)%nat) by (rewrite length_take; lia).
  assert (Hd : length (drop (Nx * Ny) u) = (Nx * Ny)%nat) by (rewrite length_drop; lia).
  set (lap := set_interior (zeros2 Nx Ny)
                (Wave.interior_term c dx dy (rows Nx Ny (take (Nx * Ny) u)))).
  set (y2 := rows Nx Ny (drop (Nx * Ny) u)).
  set (d2 := map2 Qcplus (map2 Qcminus lap (smap (λ v, a * v) y2)) f_ext).
  assert (S2 : has_shape Nx Ny y2) by (by apply rows_shape).
  assert (Sd : has_shape Nx Ny d2).
  { repeat (apply map2_shape || apply smap_shape); try done.
    apply set_interior_shape; [apply zeros2_shape|by apply interior_term_shape, rows_shape]. }
  assert (Ld := length_concat_shape _ _ _ Sd).
  exists (drop (Nx * Ny) u ++ concat d2).
  split; [apply wave_odefun_form|]. split; [rewrite length_app; lia|].
  intros i j Hi Hj.
  assert (Hp := pos1_lt Nx Ny i j Hi Hj).
  assert (Hv : u !! Wave.pos2 Nx Ny i j = Some (u !!! Wave.pos2 Nx Ny i j)).
  { apply list_lookup_lookup_total_lt. unfold Wave.pos2. fold (Wave.pos1 Nx Ny i j). lia. }
  remember (u !!! Wave.pos2 Nx Ny i j) as v eqn:Heqv. clear Heqv.
  split.
  - rewrite lookup_app_l by lia. by rewrite lookup_drop.
  - destruct (cell_is_Some Nx Ny f_ext i j Hfs Hi Hj) as [f Hfc].
    exists f. split; [done|].
    unfold Wave.pos2. rewrite lookup_app_r by lia.
    rewrite Hd, Nat.add_comm, Nat.add_sub.
    rewrite (lookup_concat_shape Nx Ny) by done.
    unfold d2. rewrite !cell_map2, cell_smap. unfold lap.
    rewrite cell_laplacian by done. unfold y2. rewrite cell_rows by done.
    rewrite lookup_drop. fold (Wave.pos2 Nx Ny i j). rewrite Hv, Hfc. done.
Qed.

End WaveEntries.

(** X4 - the first half of the wave right-hand side is the velocity: whenever
    [odefun] returns on a state of length [2*Nx*Ny], the result has the
    length of the state, its first [Nx*Ny] entries are the second half of
    the state ([dy1/dt = y2]), and [odefun] accepts every update
    [u + h * odefun(u)] at the same time. *)
Theorem wave_odefun_velocity_half (u : list Qc) (t B a c : Qc) (x y : list Qc)
    (dx dy : Qc) (Nx Ny : nat) (r : list Qc) :
  length u = (2 * Nx * Ny)%nat →
  Wave.odefun u t B a c x y dx dy Nx Ny = Ok r →
  length r = length u ∧ take (Nx * Ny) r = drop (Nx * Ny) u ∧
  ∀ h, is_Ok (Wave.odefun (axpy h u r) t B a c x y dx dy Nx Ny).
Proof.
  intros Hu Hr.
  destruct (Wave.external_force x y t B Nx Ny) as [f_ext|e] eqn:Hf.
  2:{ unfold Wave.odefun in Hr. rewrite unpack_Ok in Hr by done. simpl in Hr.
      rewrite Hf in Hr. done. }
  destruct (wave_odefun_entries u t B a c x y dx dy Nx Ny f_ext Hu Hf)
    as (r1 & Hr1 & Hlen & _).
  assert (r1 = r) as -> by congruence.
  split; [lia|]. split.
  - rewrite (wave_odefun_form u t B a c x y dx dy Nx Ny f_ext Hu Hf) in Hr.
    injection Hr as <-. rewrite take_app_length'; [done|]. rewrite length_drop. lia.
  - intros h.
    assert (Hax : length (axpy h u r) = (2 * Nx * Ny)%nat).
    { unfold axpy. rewrite length_zip_with. lia. }
    destruct (wave_odefun_entries (axpy h u r) t B a c x y dx dy Nx Ny f_ext Hax Hf)
      as (r2 & Hr2 & _). by exists r2.
Qed.

Lemma wave_odefun_velocity_half_witness :
  let u := zeros 9 ++ [1] ++ zeros 8 in
  let g := [Q2Qc 0; 1; lit 2 1] in
  let r := 1 :: zeros 8 ++ [- 1] ++ zeros 8 in
  length u = (2 * 3 * 3)%nat ∧ Wave.odefun u 0 1 1 1 g g 1 1 3 3 = Ok r ∧
  length r = length u ∧ take (3 * 3) r = drop (3 * 3) u.
Proof.
  intros u g r.
  assert (Hr : Wave.odefun u 0 1 1 1 g g 1 1 3 3 = Ok r) by by_eval.
  split; [reflexivity|]. split; [exact Hr|].
  destruct (wave_odefun_velocity_half u 0 1 1 1 g g 1 1 3 3 r eq_refl Hr) as (H1 & H2 & _).
  split; [exact H1 | exact H2].
Defined.








(** ** The heat right-hand side on ill-formed parameters and short states *)


Lemma broadcast2_singleton_r f (a : list Qc) (b0 : Qc) :
  broadcast2 f a [b0] = Ok (map1 (λ v, f v b0) a).
Proof.
  unfold broadcast2. case_bool_decide as Hlen.
  - by destruct a as [|a0 [|a1 a]].
  - by destruct a as [|a0 [|a1 a]].
Qed.

Lemma lookup_flux_quotient (p : Heat.params) i :
  length (Heat.q p) = Heat.Nx p → length (Heat.x p) = S (Heat.Nx p) →
  (i < Heat.Nx p)%nat →
  zip_with Qcdiv (zip_with Qcplus (Heat.dq_left p) (Heat.dq_right p)) (diff (Heat.x p)) !! i
  = Some (Heat.dq_spec (Heat.q p) (Heat.Nx p) i / (Heat.x p !!! S i - Heat.x p !!! i)).
Proof.
  intros Hq Hx Hi.
  rewrite lookup_zip_with, lookup_dq by done. simpl.
  by rewrite lookup_diff_total by lia.
Qed.



(** X9 - a state of length 1 is stretched, not rejected: for well-formed
    parameters and every value [v], [odefun(t, [v], params)] returns a vector
    of length [Nx] whose entry [i] is
    [-(1/C) * (dq[i] / (x[i+1] - x[i]) - a * v)] - the result for the state
    that holds [v] in every cell. *)
Theorem heat_odefun_broadcast_state (t v : Qc) (p : Heat.params) :
  Heat.well_formed p →
  ∃ r, Heat.odefun t [v] p = Ok r ∧ length r = Heat.Nx p ∧
       Heat.odefun t (replicate (Heat.Nx p) v) p = Ok r ∧
       ∀ i, (i < Heat.Nx p)%nat →
         r !! i = Some (- (1 / Heat.c p)
                        * (Heat.dq_spec (Heat.q p) (Heat.Nx p) i
                           / (Heat.x p !!! (i + 1)%nat - Heat.x p !!! i)
                           - Heat.a p * v)).
Proof.
  intros (Hq & Hx & Hc & _).
  set (Q := zip_with Qcdiv (zip_with Qcplus (Heat.dq_left p) (Heat.dq_right p))
              (diff (Heat.x p))).
  assert (HQ : length Q = Heat.Nx p) by by apply length_flux_quotient.
  assert (Hr : Heat.odefun t [v] p
               = Ok (map1 (λ w, - / Heat.c p * w) (map1 (λ w, w - v * Heat.a p) Q))).
  { unfold Heat.odefun. rewrite dq_Ok by done. simpl.
    unfold pow_m1. rewrite bool_decide_eq_false_2 by done. simpl.
    rewrite broadcast2_same
      by (rewrite length_zip_with, length_dq_left, length_dq_right, length_diff by done; lia).
    simpl. fold Q. by rewrite broadcast2_singleton_r. }
  assert (Hcells : ∀ i, (i < Heat.Nx p)%nat →
            map1 (λ w, - / Heat.c p * w) (map1 (λ w, w - v * Heat.a p) Q) !! i
            = Some (- (1 / Heat.c p)
                    * (Heat.dq_spec (Heat.q p) (Heat.Nx p) i
                       / (Heat.x p !!! (i + 1)%nat - Heat.x p !!! i)
                       - Heat.a p * v))).
  { intros i Hi. unfold map1. rewrite !list_lookup_fmap. unfold Q.
    rewrite lookup_flux_quotient by done. simpl. rewrite Nat.add_1_r.
    f_equal. unfold Qcdiv. ring. }
  eexists. split; [exact Hr|]. split; [|split; [|exact Hcells]].
  - unfold map1. by rewrite !length_fmap.
  - assert (Hy : length (replicate (Heat.Nx p) v) = Heat.Nx p) by apply length_replicate.
    rewrite (odefun_Ok p Hq Hx Hc t _ Hy). f_equal.
    apply list_eq. intros i. destruct (decide (i < Heat.Nx p)%nat) as [Hi|Hi].
    + rewrite Hcells by done.
      rewrite (lookup_odefun p Hq Hx Hc t _ _ i Hy (odefun_Ok p Hq Hx Hc t _ Hy) Hi).
      rewrite (list_lookup_total_correct (replicate (Heat.Nx p) v) i v)
        by (by apply lookup_replicate_2).
      rewrite Nat.add_1_r. f_equal. unfold Qcdiv. ring.
    + unfold map1. rewrite !lookup_ge_None_2; [done|..];
        rewrite ?length_fmap, ?length_zip_with, ?length_fmap, ?length_replicate; lia.
Qed.

Lemma heat_odefun_broadcast_state_witness :
  let p := Heat.Params (lit 5 1) [1; lit 3 1; lit 7 1] [Q2Qc 0; 1; lit 2 1; lit 3 1] 1 3 in
  Heat.well_formed p ∧
  ∃ r, Heat.odefun 0 [1] p = Ok r ∧ length r = 3%nat ∧
       Heat.odefun 0 [1; 1; 1] p = Ok r.
Proof.
  intros p. split; [apply sample_well_formed|].
  destruct (heat_odefun_broadcast_state 0 1 p (sample_well_formed _))
    as (r & Hr & Hlen & Hrep & _).
  exists r. split; [exact Hr|]. split; [exact Hlen | exact Hrep].
Defined.

(** ** The data handed to the plots *)

Lemma getitem_Ok (l : list Qc) k : (k < length l)%nat → getitem l k = Ok (l !!! k).
Proof.
  intros Hk. unfold getitem. by rewrite (list_lookup_lookup_total_lt l k).
Qed.

(** A column of a matrix whose rows all have [nt] entries. *)
Lemma column_Ok (m : list (list Qc)) (nt k : nat) :
  Forall (λ row, length row = nt) m → (k < nt)%nat →
  ∃ col, column m k = Ok col ∧ length col = length m ∧
         ∀ i, (i < length m)%nat → col !! i = cell m i k.
Proof.
  intros Hrows Hk. induction Hrows as [|row m Hrow _ IH]; simpl.
  - exists []. split; [done|]. split; [done|]. intros i Hi. simpl in Hi. lia.
  - destruct IH as (col & -> & Hlen & Hcol).
    rewrite getitem_Ok by lia. simpl.
    exists (row !!! k :: col). split; [done|]. split; [simpl; lia|].
    intros [|i] Hi; unfold cell; simpl.
    + symmetry. apply list_lookup_lookup_total_lt. lia.
    + apply Hcol. simpl in Hi. lia.
Qed.

Lemma column_take (m : list (list Qc)) (n k : nat) col :
  column m k = Ok col → column (take n m) k = Ok (take n col).
Proof.
  revert n col. induction m as [|row m IH]; intros n col Hcol; simpl in Hcol.
  - injection Hcol as <-. by destruct n.
  - destruct (getitem row k) as [v|e] eqn:Hv; [|done]. simpl in Hcol.
    destruct (column m k) as [col'|e] eqn:Hc; [|done]. injection Hcol as <-.
    destruct n as [|n]; simpl; [done|]. rewrite Hv. simpl.
    by rewrite (IH n col').
Qed.

(** X13 - what the wave plot shows: for a trajectory matrix of [2*Nx*Ny] rows
    and as many columns as there are times, and every slider position
    [Time] below the number of times, [plot_solution] succeeds; its image is
    an [Nx]-by-[Ny] array whose cell [(i, j)] is row [i*Ny + j] of column
    [Time], its title time is [sol.t[Time]], and the image is exactly the
    first field that [odefun] unpacks from that column. *)
Theorem plot_wave_shows_displacement (sol : OdeResult) (Nx Ny Time : nat) :
  has_shape (2 * Nx * Ny) (length (sol_t sol)) (sol_y sol) →
  (Time < length (sol_t sol))%nat →
  ∃ img t u y2,
    Plot.wave sol Nx Ny Time = Ok (img, t) ∧
    has_shape Nx Ny img ∧ sol_t sol !! Time = Some t ∧
    (∀ i j, (i < Nx)%nat → (j < Ny)%nat →
       cell img i j = cell (sol_y sol) (Wave.pos1 Nx Ny i j) Time) ∧
    column (sol_y sol) Time = Ok u ∧ Wave.unpack Nx Ny u = Ok (img, y2).
Proof.
  intros [Hn Hrows] HT.
  destruct (column_Ok _ _ Time Hrows HT) as (u & Hu & Hlen & Hcol).
  rewrite Hn in Hlen, Hcol.
  assert (Htk : length (take (Nx * Ny) u) = (Nx * Ny)%nat) by (rewrite length_take; lia).
  exists (rows Nx Ny (take (Nx * Ny) u)), (sol_t sol !!! Time), u,
    (rows Nx Ny (drop (Nx * Ny) u)).
  split.
  { unfold Plot.wave. rewrite (column_take _ _ _ _ Hu). simpl.
    rewrite reshape2_Ok by done. simpl. by rewrite getitem_Ok. }
  split; [by apply rows_shape|].
  split; [by apply list_lookup_lookup_total_lt|].
  split; [|split; [done|by apply unpack_Ok]].
  intros i j Hi Hj. assert (Hp := pos1_lt Nx Ny i j Hi Hj).
  rewrite cell_rows by done. fold (Wave.pos1 Nx Ny i j).
  rewrite lookup_take_lt by done. apply Hcol. lia.
Qed.

Lemma plot_wave_shows_displacement_witness :
  let sol := {| sol_t := [Q2Qc 0; 1];
                sol_y := [[Q2Qc 0; 1]; [Q2Qc 0; lit 2 1]; [Q2Qc 0; lit 3 1]; [Q2Qc 0; lit 4 1]];
                status := 0; message := ""; success := true |} in
  has_shape (2 * 1 * 2) (length (sol_t sol)) (sol_y sol) ∧
  (1 < length (sol_t sol))%nat ∧
  ∃ img t, Plot.wave sol 1 2 1 = Ok (img, t) ∧ sol_t sol !! 1%nat = Some t ∧
           cell img 0 1 = Some (lit 2 1).
Proof.
  intros sol.
  assert (Hs : has_shape (2 * 1 * 2) (length (sol_t sol)) (sol_y sol))
    by (split; [reflexivity | repeat constructor]).
  assert (HT : (1 < length (sol_t sol))%nat) by (simpl; lia).
  split; [exact Hs|]. split; [exact HT|].
  destruct (plot_wave_shows_displacement sol 1 2 1 Hs HT)
    as (img & t & u & y2 & Hp & _ & Ht & Hc & _).
  exists img, t. split; [exact Hp|]. split; [exact Ht|].
  rewrite (Hc 0 1)%nat by lia. reflexivity.
Defined.

Lemma qmin_le_l a b : qmin a b ≤ a.
Proof.
  unfold qmin. case_bool_decide as Hab; [apply Qcle_refl|].
  by apply Qclt_le_weak, Qcnot_le_lt.
Qed.

Lemma qmin_le_r a b : qmin a b ≤ b.
Proof. unfold qmin. case_bool_decide as Hab; [done|apply Qcle_refl]. Qed.

Lemma qmax_ge_l a b : a ≤ qmax a b.
Proof. unfold qmax. case_bool_decide as Hab; [done|apply Qcle_refl]. Qed.

Lemma qmax_ge_r a b : b ≤ qmax a b.
Proof.
  unfold qmax. case_bool_decide as Hab; [apply Qcle_refl|].
  by apply Qclt_le_weak, Qcnot_le_lt.
Qed.

Lemma foldl_qmin_le (l : list Qc) a :
  foldl qmin a l ≤ a ∧ ∀ v, v ∈ l → foldl qmin a l ≤ v.
Proof.
  revert a. induction l as [|w l IH]; intros a; simpl.
  - split; [apply Qcle_refl|]. by intros v ?%elem_of_nil.
  - destruct (IH (qmin a w)) as [Ha Hl]. split.
    + eapply Qcle_trans; [exact Ha|apply qmin_le_l].
    + intros v [->|Hv]%elem_of_cons; [|by apply Hl].
      eapply Qcle_trans; [exact Ha|apply qmin_le_r].
Qed.

Lemma foldl_qmax_ge (l : list Qc) a :
  a ≤ foldl qmax a l ∧ ∀ v, v ∈ l → v ≤ foldl qmax a l.
Proof.
  revert a. induction l as [|w l IH]; intros a; simpl.
  - split; [apply Qcle_refl|]. by intros v ?%elem_of_nil.
  - destruct (IH (qmax a w)) as [Ha Hl]. split.
    + eapply Qcle_trans; [apply qmax_ge_l|exact Ha].
    + intros v [->|Hv]%elem_of_cons; [|by apply Hl].
      eapply Qcle_trans; [apply qmax_ge_r|exact Ha].
Qed.

Lemma amin_le (l : list Qc) lo v : amin l = Ok lo → v ∈ l → lo ≤ v.
Proof.
  destruct l as [|w l]; [done|]. intros [= <-] [->|Hv]%elem_of_cons.
  - apply (proj1 (foldl_qmin_le l w)).
  - by apply (proj2 (foldl_qmin_le l w)).
Qed.

Lemma amax_ge (l : list Qc) hi v : amax l = Ok hi → v ∈ l → v ≤ hi.
Proof.
  destruct l as [|w l]; [done|]. intros [= <-] [->|Hv]%elem_of_cons.
  - apply (proj1 (foldl_qmax_ge l w)).
  - by apply (proj2 (foldl_qmax_ge l w)).
Qed.

Lemma elem_of_concat (m : list (list Qc)) (row : list Qc) v :
  row ∈ m → v ∈ row → v ∈ concat m.
Proof.
  intros Hrow Hv. induction Hrow as [row m|row' row m _ IH]; simpl;
    apply elem_of_app; [by left|right; by apply IH].
Qed.

(** X14 - what the heat plot draws: for a trajectory matrix of [Nx >= 1] rows
    and as many columns ([>= 1]) as there are times, a grid of [Nx + 1]
    coordinates and every slider position [iy] below the number of times,
    [plot_solution] succeeds; abscissae and ordinates both have [Nx] entries
    (the cell's right edge [x[i+1]] against row [i] of column [iy]), and
    every ordinate lies between the two limits given to [set_ylim]. *)
Theorem plot_heat_within_limits (sol : OdeResult) (p : Heat.params) (iy : nat) :
  has_shape (Heat.Nx p) (length (sol_t sol)) (sol_y sol) →
  length (Heat.x p) = S (Heat.Nx p) → (1 ≤ Heat.Nx p)%nat →
  (iy < length (sol_t sol))%nat →
  ∃ xs ys t lo hi,
    Plot.heat sol p iy = Ok (xs, ys, t, (lo, hi)) ∧
    length xs = Heat.Nx p ∧ length ys = Heat.Nx p ∧ sol_t sol !! iy = Some t ∧
    (∀ i, (i < Heat.Nx p)%nat →
       xs !! i = Heat.x p !! S i ∧ ys !! i = cell (sol_y sol) i iy) ∧
    (∀ v, v ∈ ys → lo ≤ v ∧ v ≤ hi).
Proof.
  intros [Hn Hrows] Hx HNx Hiy.
  destruct (column_Ok _ _ iy Hrows Hiy) as (ys & Hys & Hlen & Hcol).
  rewrite Hn in Hlen, Hcol.
  assert (Hne : ∃ w l, concat (sol_y sol) = w :: l).
  { destruct (sol_y sol) as [|row m] eqn:Hm; [simpl in Hn; lia|].
    apply Forall_cons in Hrows as [Hrow _].
    destruct row as [|w row]; [simpl in Hrow; lia|]. simpl. eauto. }
  destruct Hne as (w & l & Hcat).
  exists (sl_1_ (Heat.x p)), ys, (sol_t sol !!! iy), (foldl qmin w l), (foldl qmax w l).
  assert (Hlo : amin (concat (sol_y sol)) = Ok (foldl qmin w l)) by (by rewrite Hcat).
  assert (Hhi : amax (concat (sol_y sol)) = Ok (foldl qmax w l)) by (by rewrite Hcat).
  split.
  { unfold Plot.heat. rewrite Hys. simpl. rewrite getitem_Ok by done. simpl.
    by rewrite Hlo, Hhi. }
  split; [unfold sl_1_; rewrite length_drop; lia|].
  split; [done|]. split; [by apply list_lookup_lookup_total_lt|]. split.
  - intros i Hi. split; [unfold sl_1_; by rewrite lookup_drop|by apply Hcol].
  - intros v Hv. apply list_elem_of_lookup in Hv as [i Hi].
    assert (i < Heat.Nx p)%nat by (rewrite <- Hlen; by eapply lookup_lt_Some).
    rewrite Hcol in Hi by done. unfold cell in Hi.
    destruct (sol_y sol !! i) as [row|] eqn:Hrow; [|done]. simpl in Hi.
    assert (Hin : v ∈ concat (sol_y sol)).
    { apply (elem_of_concat _ row); apply list_elem_of_lookup; eauto. }
    split; [by eapply amin_le|by eapply amax_ge].
Qed.

Lemma plot_heat_within_limits_witness :
  let sol := {| sol_t := [Q2Qc 0; 1];
                sol_y := [[1; lit 2 1]; [lit 4 1; lit 3 1]];
                status := 0; message := ""; success := true |} in
  let p := Heat.Params (lit 5 1) [1; 1] [Q2Qc 0; 1; lit 2 1] 0 2 in
  has_shape (Heat.Nx p) (length (sol_t sol)) (sol_y sol) ∧
  length (Heat.x p) = S (Heat.Nx p) ∧ (1 ≤ Heat.Nx p)%nat ∧
  (1 < length (sol_t sol))%nat ∧
  ∃ xs ys t lo hi, Plot.heat sol p 1 = Ok (xs, ys, t, (lo, hi)) ∧
                   length xs = 2%nat ∧ length ys = 2%nat.
Proof.
  intros sol p.
  assert (Hs : has_shape (Heat.Nx p) (length (sol_t sol)) (sol_y sol))
    by (split; [reflexivity | repeat constructor]).
  assert (Hiy : (1 < length (sol_t sol))%nat) by (simpl; lia).
  split; [exact Hs|]. split; [reflexivity|]. split; [simpl; lia|]. split; [exact Hiy|].
  destruct (plot_heat_within_limits sol p 1 Hs eq_refl ltac:(simpl; lia) Hiy)
    as (xs & ys & t & lo & hi & Hp & Hlx & Hly & _).
  exists xs, ys, t, lo, hi. split; [exact Hp|]. split; [exact Hlx | exact Hly].
Defined.

Lemma pack_unpack_roundtrip_witness :
  let u := [1%nat; 2%nat; 3%nat; 4%nat; 5%nat; 6%nat; 7%nat; 8%nat] in
  length u = (2 * 2 * 2)%nat ∧
  ∃ y1 y2, Wave.unpack 2 2 u = Ok (y1, y2) ∧ Wave.pack 2 2 y1 y2 = Ok u.
Proof.
  intros u. split; [reflexivity|].
  destruct (pack_unpack_roundtrip 2 2 u eq_refl) as (y1 & y2 & Hun & _ & _ & Hp).
  exists y1, y2. split; [exact Hun | exact Hp].
Defined.
